(** * renderer/sse.go: the Server-Sent Events codec

    A shallow embedding of [SSEventEncode] and [SSEventDecode] together with
    the parts of Go's [bytes], [strconv], [fmt], [io] and [bufio] packages the
    two functions call, followed by the properties of the codec.

    Conventions.
    - A Go [[]byte] and a Go [string] are both [Bytes], a list of bytes; the
      conversions [string(b)] and [[]byte(s)] are the identity.
    - Go's [int] and [uint] are the 64-bit ones; they are [Z] with the range
      written out where the code converts or range-checks.
    - The functions of Go's standard library are written down from their
      documented behaviour, each in a module with the name of its package.
    - An [io.Reader] is the bytes it delivers and the way it ends (end of
      file or an error); a nil reader is [None].
    - The sink of the encoder is an in-memory buffer (the [bytes.Buffer] the
      repository's tests pass): its writes append and never fail. *)

From Stdlib Require Import List ZArith Lia Bool.
From Stdlib Require Import Strings.Byte.
From Stdlib Require Strings.String.
Import ListNotations.
Import String.StringSyntax.
Delimit Scope string_scope with string.

Local Open Scope Z_scope.
Local Open Scope list_scope.

(** ** Bytes, strings and integers *)

Definition LF : byte := x0a.
Definition CR : byte := x0d.
Definition NUL : byte := x00.
Definition colon : byte := x3a.
Definition space : byte := x20.
Definition minus : byte := x2d.
Definition plus : byte := x2b.

Definition Bytes := list byte.

(** A Go string literal of printable characters. *)
Definition lit (s : String.string) : Bytes := String.list_byte_of_string s.
Arguments lit s%_string.

Definition len {A : Type} (s : list A) : Z := Z.of_nat (length s).

Definition byte_to_Z (b : byte) : Z := Z.of_N (Byte.to_N b).

Definition byte_of_Z (z : Z) : byte :=
  match Byte.of_N (Z.to_N (z mod 256)) with
  | Some b => b
  | None => x00
  end.

(** [s == t] on strings. *)
Fixpoint bytes_eqb (s t : Bytes) : bool :=
  match s, t with
  | [], [] => true
  | a :: s', b :: t' => Byte.eqb a b && bytes_eqb s' t'
  | _, _ => false
  end.

(** [s[lo:]] and [s[:hi]] within bounds. *)
Definition slice_from (s : Bytes) (lo : Z) : Bytes := skipn (Z.to_nat lo) s.
Definition slice_to (s : Bytes) (hi : Z) : Bytes := firstn (Z.to_nat hi) s.

Definition intSize : Z := 64.
Definition maxInt : Z := 2 ^ (intSize - 1) - 1.
Definition minInt : Z := - 2 ^ (intSize - 1).
Definition maxUint : Z := 2 ^ intSize - 1.

(** The conversion [uint(n)] of an [int]. *)
Definition uint (n : Z) : Z := n mod 2 ^ intSize.

(** ** Errors and panics *)

Definition error := String.string.

(** How a call that writes ends: it returns, it returns an error, or it
    panics. *)
Inductive outcome (A : Type) : Type :=
| Returned (a : A)
| Failed (e : error)
| Panicked.
Arguments Returned {A} a.
Arguments Failed {A} e.
Arguments Panicked {A}.

Definition bind {A B : Type} (m : outcome A) (k : A -> outcome B) : outcome B :=
  match m with
  | Returned a => k a
  | Failed e => Failed e
  | Panicked => Panicked
  end.

Notation "x <- m ;; k" := (bind m (fun x => k))
  (at level 61, m at next level, right associativity).

(** ** Package [bufio], over the in-memory sink *)

Module bufio.

Record Writer := {
  wr : Bytes;        (* what the sink holds *)
  pending : Bytes    (* written to the [bufio.Writer], not yet flushed *)
}.

Definition NewWriter (sink : Bytes) : Writer := {| wr := sink; pending := [] |}.

Definition WriteString (buf : Writer) (s : Bytes) : outcome Writer :=
  Returned {| wr := wr buf; pending := pending buf ++ s |}.

(** The sink as it is once the pending bytes are written to it. *)
Definition Flush (buf : Writer) : outcome Bytes :=
  Returned (wr buf ++ pending buf).

End bufio.

(** ** Package [io] *)

Module io.

Record Reader := {
  rd_bytes : Bytes;          (* what the reader delivers before it ends *)
  rd_err : option error      (* [None]: it ends with [io.EOF] *)
}.

Definition ReadAll (r : Reader) : Bytes * option error := (rd_bytes r, rd_err r).

(** [io.Copy(buf, src)]: [buf] already holds bytes, so [bufio]'s [ReadFrom]
    calls [src.Read], which on a nil interface is a nil dereference. *)
Definition Copy (buf : bufio.Writer) (src : option Reader) : outcome bufio.Writer :=
  match src with
  | None => Panicked
  | Some r =>
      buf' <- bufio.WriteString buf (rd_bytes r) ;;
      match rd_err r with
      | Some e => Failed e
      | None => Returned buf'
      end
  end.

End io.

(** ** Package [bytes] *)

Module bytes.

Fixpoint HasPrefix (s prefix : Bytes) {struct prefix} : bool :=
  match prefix with
  | [] => true
  | p :: prefix' =>
      match s with
      | [] => false
      | c :: s' => Byte.eqb c p && HasPrefix s' prefix'
      end
  end.

Definition TrimPrefix (s prefix : Bytes) : Bytes :=
  if HasPrefix s prefix then skipn (length prefix) s else s.

(** [bytes.ReplaceAll s old new] for a non-empty [old] (both call sites):
    the non-overlapping occurrences of [old], found from the left, become
    [new].  [skip] counts the bytes of the occurrence just replaced that
    are still to be passed over. *)
Fixpoint replace_from (skip : nat) (s old new : Bytes) : Bytes :=
  match s with
  | [] => []
  | c :: s' =>
      match skip with
      | S k => replace_from k s' old new
      | O =>
          if HasPrefix s old
          then new ++ replace_from (length old - 1) s' old new
          else c :: replace_from 0 s' old new
      end
  end.

Definition ReplaceAll (s old new : Bytes) : Bytes := replace_from 0 s old new.

Definition cons_head (c : byte) (ls : list Bytes) : list Bytes :=
  match ls with
  | l :: ls' => (c :: l) :: ls'
  | [] => [[c]]
  end.

(** [bytes.Split s sep] for a non-empty [sep]: all the pieces between the
    occurrences of [sep]; an input without [sep] (also the empty one) is a
    single piece. *)
Fixpoint split_from (skip : nat) (s sep : Bytes) : list Bytes :=
  match s with
  | [] => [[]]
  | c :: s' =>
      match skip with
      | S k => split_from k s' sep
      | O =>
          if HasPrefix s sep
          then [] :: split_from (length sep - 1) s' sep
          else cons_head c (split_from 0 s' sep)
      end
  end.

Definition Split (s sep : Bytes) : list Bytes := split_from 0 s sep.

(** [bytes.IndexRune s r] for a rune below [utf8.RuneSelf], that is
    [bytes.IndexByte]: the index of the first [c], or -1. *)
Fixpoint IndexRune (s : Bytes) (c : byte) : Z :=
  match s with
  | [] => -1
  | x :: s' =>
      if Byte.eqb x c then 0
      else let i := IndexRune s' c in if i =? -1 then -1 else i + 1
  end.

Fixpoint Contains (s sub : Bytes) : bool :=
  HasPrefix s sub ||
  match s with
  | [] => false
  | _ :: s' => Contains s' sub
  end.

Fixpoint Join (s : list Bytes) (sep : Bytes) : Bytes :=
  match s with
  | [] => []
  | [x] => x
  | x :: s' => x ++ sep ++ Join s' sep
  end.

(** [bytes.NewReader] (and [strings.NewReader]): the reader of a buffer
    ends with end of file. *)
Definition NewReader (b : Bytes) : io.Reader :=
  {| io.rd_bytes := b; io.rd_err := None |}.

End bytes.

(** ** Package [strconv] *)

Module strconv.

(** The digit loop of [Atoi]: [ch -= '0'] wraps around in a byte, and a
    result above 9 is a syntax error. *)
Fixpoint atoi_digits (s : Bytes) (n : Z) : option Z :=
  match s with
  | [] => Some n
  | ch :: s' =>
      let d := (byte_to_Z ch - 48) mod 256 in
      if 9 <? d then None else atoi_digits s' (n * 10 + d)
  end.

(** [strconv.Atoi]: an optional sign, then at least one decimal digit and
    nothing else; a value outside [int] is a range error.  [None] is any
    non-nil error. *)
Definition Atoi (s : Bytes) : option Z :=
  match s with
  | [] => None
  | s0 :: rest =>
      let digits := if Byte.eqb s0 minus || Byte.eqb s0 plus then rest else s in
      if len digits <? 1 then None
      else
        match atoi_digits digits 0 with
        | None => None
        | Some un =>
            let n := if Byte.eqb s0 minus then - un else un in
            if (minInt <=? n) && (n <=? maxInt) then Some n else None
        end
  end.

End strconv.

(** ** Package [fmt] *)

Module fmt.

(** The verb [%d] on an unsigned value: [fmtInteger] fills its buffer from
    the right, one digit per division by ten.  The buffer has room for
    every 64-bit value; [room] is what is left of it. *)
Fixpoint fmt_digits (room : nat) (u : Z) (acc : Bytes) : Bytes :=
  match room with
  | O => acc
  | S room' =>
      if 10 <=? u
      then let next := u / 10 in
           fmt_digits room' next (byte_of_Z (48 + u - next * 10) :: acc)
      else byte_of_Z (48 + u) :: acc
  end.

Definition fmt_d (u : Z) : Bytes := fmt_digits 20 u [].

(** [fmt.Fprintf(buf, "<name>: %s\n", v)] and the same with [%d]. *)
Definition Fprintf_s (buf : bufio.Writer) (name v : Bytes) : outcome bufio.Writer :=
  bufio.WriteString buf (name ++ lit ": " ++ v ++ [LF]).

Definition Fprintf_d (buf : bufio.Writer) (name : Bytes) (u : Z) : outcome bufio.Writer :=
  bufio.WriteString buf (name ++ lit ": " ++ fmt_d u ++ [LF]).

End fmt.

(** ** The event *)

Record SSEvent := {
  Event : Bytes;
  Data : option io.Reader;
  ID : Bytes;
  Retry : Z
}.

(** The zero value [SSEvent{}]. *)
Definition SSEvent_zero : SSEvent :=
  {| Event := []; Data := None; ID := []; Retry := 0 |}.

(** ** [SSEventEncode] *)

Definition SSEventEncode (writer : Bytes) (event : SSEvent) : outcome Bytes :=
  let buf := bufio.NewWriter writer in
  buf <- (if 0 <? len (Event event)
          then fmt.Fprintf_s buf (lit "event") (Event event)
          else Returned buf) ;;
  buf <- (if 0 <? len (ID event)
          then fmt.Fprintf_s buf (lit "id") (ID event)
          else Returned buf) ;;
  buf <- (if 0 <? Retry event
          then fmt.Fprintf_d buf (lit "retry") (Retry event)
          else Returned buf) ;;
  buf <- bufio.WriteString buf (lit "data: ") ;;
  buf <- io.Copy buf (Data event) ;;
  buf <- bufio.WriteString buf [LF; LF] ;;
  bufio.Flush buf.

(** ** [SSEventDecode] *)

(** The three variables of the loop. *)
Record state := {
  dataLines : list Bytes;
  event : SSEvent;
  events : list SSEvent
}.

Definition state_init : state :=
  {| dataLines := []; event := SSEvent_zero; events := [] |}.

Definition set_Event (e : SSEvent) (v : Bytes) : SSEvent :=
  {| Event := v; Data := Data e; ID := ID e; Retry := Retry e |}.
Definition set_Data (e : SSEvent) (r : io.Reader) : SSEvent :=
  {| Event := Event e; Data := Some r; ID := ID e; Retry := Retry e |}.
Definition set_ID (e : SSEvent) (v : Bytes) : SSEvent :=
  {| Event := Event e; Data := Data e; ID := v; Retry := Retry e |}.
Definition set_Retry (e : SSEvent) (n : Z) : SSEvent :=
  {| Event := Event e; Data := Data e; ID := ID e; Retry := n |}.

Definition with_event (st : state) (e : SSEvent) : state :=
  {| dataLines := dataLines st; event := e; events := events st |}.

(** The branch of an empty line. *)
Definition end_of_event (st : state) : state :=
  if (len (dataLines st) =? 0) && bytes_eqb (Event (event st)) []
  then st
  else
    let ev := event st in
    let ev := if 0 <? len (dataLines st)
              then set_Data ev (bytes.NewReader (bytes.Join (dataLines st) [LF]))
              else ev in
    let ev := if bytes_eqb (Event ev) []
              then set_Event ev (lit "message")
              else ev in
    {| dataLines := []; event := SSEvent_zero; events := events st ++ [ev] |}.

(** The field name and the value of a line. *)
Definition split_field (line : Bytes) : Bytes * Bytes :=
  let index := bytes.IndexRune line colon in
  if negb (index =? -1)
  then
    let field := slice_to line index in
    let value := slice_from line (index + 1) in
    let value :=
      match value with
      | v0 :: _ => if Byte.eqb v0 space then slice_from value 1 else value
      | [] => value
      end in
    (field, value)
  else (line, []).

(** The [switch] on the field name. *)
Definition process_field (st : state) (field value : Bytes) : state :=
  if bytes_eqb field (lit "event") then
    with_event st (set_Event (event st) value)
  else if bytes_eqb field (lit "id") then
    if negb (bytes.Contains value [NUL])
    then with_event st (set_ID (event st) value)
    else st
  else if bytes_eqb field (lit "retry") then
    match strconv.Atoi value with
    | Some retry =>
        if 0 <=? retry
        then with_event st (set_Retry (event st) (uint retry))
        else st
    | None => st
    end
  else if bytes_eqb field (lit "data") then
    {| dataLines := dataLines st ++ [value];
       event := event st;
       events := events st |}
  else st.

(** One iteration of the loop over the lines. *)
Definition process_line (st : state) (line : Bytes) : state :=
  if len line =? 0 then end_of_event st
  else if bytes.HasPrefix line [colon] then st
  else let (field, value) := split_field line in
       process_field st field value.

Definition process_lines (st : state) (lines : list Bytes) : state :=
  fold_left process_line lines st.

Definition BOM : Bytes := [xef; xbb; xbf].

(** The normalisation in front of the loop. *)
Definition normalize (raw : Bytes) : Bytes :=
  let raw := bytes.TrimPrefix raw BOM in
  let raw := bytes.ReplaceAll raw [CR; LF] [LF] in
  bytes.ReplaceAll raw [CR] [LF].

(** The loop on a buffer that was read. *)
Definition decode_bytes (raw : Bytes) : list SSEvent :=
  let lines := bytes.Split (normalize raw) [LF] in
  events (process_lines state_init lines).

Definition SSEventDecode (reader : io.Reader) : list SSEvent * option error :=
  let (raw, err) := io.ReadAll reader in
  match err with
  | Some e => ([], Some e)
  | None => (decode_bytes raw, None)
  end.

Import bufio io bytes strconv fmt.

(** * The vocabulary of the properties *)

(** The value of a field line once its optional leading space is gone. *)
Definition strip_space (value : Bytes) : Bytes :=
  match value with
  | v0 :: value' => if Byte.eqb v0 space then value' else value
  | [] => []
  end.

Definition is_digit (b : byte) : Prop := 48 <= byte_to_Z b <= 57.

(** The number a string of decimal digits denotes. *)
Definition digits_value (ds : Bytes) : Z :=
  fold_left (fun n b => n * 10 + (byte_to_Z b - 48)) ds 0.

(** [v] is a base-10 integer denoting [n]: an optional sign, then at least
    one digit and nothing else. *)
Inductive base10 : Bytes -> Z -> Prop :=
| base10_unsigned (ds : Bytes) :
    ds <> [] -> Forall is_digit ds -> base10 ds (digits_value ds)
| base10_plus (ds : Bytes) :
    ds <> [] -> Forall is_digit ds -> base10 (plus :: ds) (digits_value ds)
| base10_minus (ds : Bytes) :
    ds <> [] -> Forall is_digit ds -> base10 (minus :: ds) (- digits_value ds).

(** The event an empty line completes. *)
Definition completed (st : state) : SSEvent :=
  {| Event := match Event (event st) with
              | [] => lit "message"
              | name => name
              end;
     Data := match dataLines st with
             | [] => Data (event st)
             | lines => Some (NewReader (Join lines [LF]))
             end;
     ID := ID (event st);
     Retry := Retry (event st) |}.

(** The line of a field: its name, a colon and a space, its value, LF. *)
Definition field_line (name value : Bytes) : Bytes :=
  name ++ [colon; space] ++ value ++ [LF].

Definition layout (e : SSEvent) (payload : Bytes) : Bytes :=
  match Event e with
  | [] => []
  | name => field_line (lit "event") name
  end ++
  match ID e with
  | [] => []
  | id => field_line (lit "id") id
  end ++
  (if 0 <? Retry e then field_line (lit "retry") (fmt_d (Retry e)) else []) ++
  lit "data: " ++ payload ++ [LF; LF].

Definition input_blank_lines : Bytes :=
  [LF; LF] ++ lit "event: t" ++ [LF] ++ lit "data: d" ++ [LF; LF; LF].

Definition input_unterminated : Bytes :=
  lit "event: a" ++ [LF] ++ lit "data: b" ++ [LF; LF] ++
  lit "event: t" ++ [LF] ++ lit "data: d".

Definition input_three_data : Bytes :=
  lit "data: a" ++ [LF] ++ lit "data: b" ++ [LF] ++ lit "data:c" ++ [LF; LF].

Definition input_two_spaces : Bytes := lit "data:  two spaces" ++ [LF; LF].

Definition retry_input (v : Bytes) : Bytes :=
  lit "retry: " ++ v ++ [LF] ++ lit "data: test" ++ [LF; LF].


Definition input_commented : Bytes :=
  lit ": c" ++ [LF] ++ lit "event: t" ++ [LF] ++ lit "data: d" ++ [LF; LF].

Definition input_uncommented : Bytes :=
  lit "event: t" ++ [LF] ++ lit "data: d" ++ [LF; LF].

(** A text as its lines, each with the ending it is written with, and the
    Bytes after the last ending. *)
Inductive ending : Type := EndLF | EndCRLF | EndCR.

Definition ending_bytes (e : ending) : Bytes :=
  match e with
  | EndLF => [LF]
  | EndCRLF => [CR; LF]
  | EndCR => [CR]
  end.

Fixpoint render (segs : list (Bytes * ending)) (tail : Bytes) : Bytes :=
  match segs with
  | [] => tail
  | (l, e) :: segs' => l ++ ending_bytes e ++ render segs' tail
  end.

(** The same lines with LF after each. *)
Definition all_LF (segs : list (Bytes * ending)) (tail : Bytes) : Bytes :=
  Join (map fst segs ++ [tail]) [LF].

(** A line holds no line ending. *)
Definition plain (s : Bytes) : Prop := ~ In CR s /\ ~ In LF s.

(** The endings are read the longest first: CR followed by LF is one
    ending, never a CR ending, an empty line and an LF ending. *)
Fixpoint greedy (segs : list (Bytes * ending)) : bool :=
  match segs with
  | [] => true
  | (_, e) :: segs' =>
      negb match e, segs' with
           | EndCR, ([], EndLF) :: _ => true
           | _, _ => false
           end
      && greedy segs'
  end.

Definition soften (seg : Bytes * ending) : Bytes * ending :=
  (fst seg, match snd seg with EndCRLF => EndLF | e => e end).

Definition with_LF (seg : Bytes * ending) : Bytes * ending := (fst seg, EndLF).

Definition input_with_BOM : Bytes := BOM ++ lit "data: x" ++ [LF; LF].

(** The three line endings in one input, as in the repository's test. *)
Definition mixed_endings : list (Bytes * ending) :=
  [(lit "event: test", EndCRLF); (lit "data: line1", EndLF);
   (lit "data: line2", EndCR); (lit "data: line3", EndLF); ([], EndLF)].

(** The lines [SSEventEncode] writes for an event with all four fields. *)
Definition encoded_lines (e : SSEvent) (payload : Bytes) : list Bytes :=
  [lit "event: " ++ Event e; lit "id: " ++ ID e;
   lit "retry: " ++ fmt_d (Retry e); lit "data: " ++ payload; []; []].

(** The round trip at one event: encoding it into an empty sink succeeds,
    and decoding what was written returns no error and that event alone. *)
Definition round_trips (e : SSEvent) : Prop :=
  exists out,
    SSEventEncode [] e = Returned out /\
    SSEventDecode (NewReader out) = ([e], None).

Definition event_with_NUL_id : SSEvent :=
  {| Event := lit "e"; Data := Some (NewReader (lit "d"));
     ID := lit "a" ++ [NUL]; Retry := 1 |}.

Definition event_with_LF_name : SSEvent :=
  {| Event := lit "a" ++ [LF] ++ lit "b"; Data := Some (NewReader (lit "d"));
     ID := lit "1"; Retry := 1 |}.

Definition event_with_CR_payload : SSEvent :=
  {| Event := lit "e"; Data := Some (NewReader (lit "a" ++ [CR] ++ lit "b"));
     ID := lit "1"; Retry := 1 |}.

Definition event_with_large_retry : SSEvent :=
  {| Event := lit "e"; Data := Some (NewReader (lit "d"));
     ID := lit "1"; Retry := maxInt + 1 |}.

(** All four fields, and a payload of two lines. *)
Definition full_event : SSEvent :=
  {| Event := lit "message";
     Data := Some (NewReader (lit "hello" ++ [LF] ++ lit "world"));
     ID := lit "123"; Retry := 3000 |}.

Definition test_event : SSEvent :=
  {| Event := lit "test-event"; Data := Some (NewReader (lit "test data"));
     ID := lit "test-id"; Retry := 1000 |}.

(** ** The vocabulary of the further properties *)

(** The bytes of the payload of an event that has one. *)
Definition payload_of (e : SSEvent) : Bytes :=
  match Data e with
  | Some r => rd_bytes r
  | None => []
  end.

(** The loop of the repository's round-trip test of several events: they
    are encoded one after the other into the same sink, and the first error
    ends the loop. *)
Fixpoint encode_all (writer : Bytes) (es : list SSEvent) : outcome Bytes :=
  match es with
  | [] => Returned writer
  | e :: es' => w <- SSEventEncode writer e ;; encode_all w es'
  end.

(** The event as the decoder returns it: the name ["message"] for none. *)
Definition default_name (e : SSEvent) : SSEvent :=
  match Event e with
  | [] => set_Event e (lit "message")
  | _ => e
  end.

(** An event the wire format can carry: a payload that reads without error,
    no line ending inside the name, the id and the payload, no NUL inside
    the id, a retry that fits an [int]. *)
Definition encodable (e : SSEvent) : Prop :=
  exists payload,
    Data e = Some (NewReader payload) /\ plain payload /\
    plain (Event e) /\ plain (ID e) /\ ~ In NUL (ID e) /\
    0 <= Retry e <= maxInt.

(** The lines [SSEventEncode] writes for an event, the empty line that ends
    it included. *)
Definition block_lines (e : SSEvent) (payload : Bytes) : list Bytes :=
  match Event e with
  | [] => []
  | name => [lit "event: " ++ name]
  end ++
  match ID e with
  | [] => []
  | id => [lit "id: " ++ id]
  end ++
  (if 0 <? Retry e then [lit "retry: " ++ fmt_d (Retry e)] else []) ++
  [lit "data: " ++ payload; []].

(** Lines written each with LF after it. *)
Definition terminated (ls : list Bytes) : Bytes :=
  flat_map (fun l => l ++ [LF]) ls.

(** The four field names the decoder knows. *)
Definition known_field (f : Bytes) : Prop :=
  f = lit "event" \/ f = lit "id" \/ f = lit "retry" \/ f = lit "data".

(** What holds of every event the decoder returns and of the one it is
    building. *)
Definition fields_ok (e : SSEvent) : Prop :=
  plain (Event e) /\ plain (ID e) /\ ~ In NUL (ID e) /\ 0 <= Retry e <= maxInt.

Definition payload_ok (e : SSEvent) : Prop :=
  match Data e with
  | None => True
  | Some r => rd_err r = None /\ ~ In CR (rd_bytes r)
  end.

Definition decoded_ok (e : SSEvent) : Prop :=
  Event e <> [] /\ fields_ok e /\ payload_ok e.

Definition state_ok (st : state) : Prop :=
  fields_ok (event st) /\ Data (event st) = None /\
  Forall (fun l => ~ In CR l) (dataLines st) /\
  Forall decoded_ok (events st).

(** Nothing is pending: an empty line changes nothing. *)
Definition idle (st : state) : Prop :=
  dataLines st = [] /\ Event (event st) = [].

(** The three events of the repository's round-trip test, and one without a
    name and an id. *)
Definition test_events : list SSEvent :=
  [{| Event := lit "event1"; Data := Some (NewReader (lit "data1"));
      ID := lit "1"; Retry := 0 |};
   {| Event := lit "event2"; Data := Some (NewReader (lit "data2"));
      ID := lit "2"; Retry := 0 |};
   {| Event := lit "event3"; Data := Some (NewReader (lit "data3"));
      ID := lit "3"; Retry := 0 |};
   {| Event := []; Data := Some (NewReader (lit " data4"));
      ID := []; Retry := 250 |}].

(** The field lines [SSEventEncode] writes in front of the [data] line. *)
Definition field_lines (e : SSEvent) : list Bytes :=
  match Event e with
  | [] => []
  | name => [lit "event: " ++ name]
  end ++
  match ID e with
  | [] => []
  | id => [lit "id: " ++ id]
  end ++
  (if 0 <? Retry e then [lit "retry: " ++ fmt_d (Retry e)] else []).

(** The second and the third step of [normalize], without the first. *)
Definition normalize_endings (raw : Bytes) : Bytes :=
  ReplaceAll (ReplaceAll raw [CR; LF] [LF]) [CR] [LF].

(** A line with a field name in another case, as an unknown field. *)
Definition input_unknown_field : Bytes :=
  lit "event: t" ++ [LF] ++ lit "Data: x" ++ [LF] ++ lit "data: d" ++ [LF; LF].

(** A line the loop passes over: a comment, a field name the decoder does
    not know, an [id] whose value holds a NUL, a [retry] whose value is not
    an integer or is negative. *)
Definition ignored_line (l : Bytes) : bool :=
  negb (len l =? 0) &&
  (HasPrefix l [colon] ||
   let (f, v) := split_field l in
   if bytes_eqb f (lit "event") then false
   else if bytes_eqb f (lit "id") then Contains v [NUL]
   else if bytes_eqb f (lit "retry") then
     match Atoi v with
     | Some n => n <? 0
     | None => true
     end
   else if bytes_eqb f (lit "data") then false
   else true).

Definition kept_line (l : Bytes) : bool := negb (ignored_line l).

(** One event among lines that are malformed in every way. *)
Definition input_malformed : Bytes :=
  terminated
    [lit "retry: 100ms"; lit "event: t"; lit "no colon"; lit "id: a" ++ [NUL];
     lit "retry: -1"; lit "Data: x"; lit "data: d"; xff :: lit ": y"; []].



(** * Properties *)

(** ** Bytes and slices *)

Lemma byte_eqb_refl (a : byte) : Byte.eqb a a = true.
Proof. now apply Byte.byte_dec_lb. Qed.

Lemma byte_eqb_eq (a b : byte) : Byte.eqb a b = true <-> a = b.
Proof. split; [apply Byte.byte_dec_bl | apply Byte.byte_dec_lb]. Qed.

Lemma byte_eqb_neq (a b : byte) : a <> b -> Byte.eqb a b = false.
Proof.
  intros Hab. destruct (Byte.eqb a b) eqn:E; [|reflexivity].
  now apply byte_eqb_eq in E.
Qed.

Lemma byte_eqb_false_iff (a b : byte) : Byte.eqb a b = false <-> a <> b.
Proof. split; [apply Byte.eqb_false | apply byte_eqb_neq]. Qed.

Lemma bytes_eqb_eq (s t : Bytes) : bytes_eqb s t = true <-> s = t.
Proof.
  revert t. induction s as [|a s IH]; intros [|b t]; simpl;
    try (split; [discriminate | discriminate]); [tauto|].
  rewrite andb_true_iff, byte_eqb_eq, IH. split.
  - now intros [-> ->].
  - intros [= -> ->]. now split.
Qed.


Lemma bytes_eqb_neq (s t : Bytes) : s <> t -> bytes_eqb s t = false.
Proof.
  intros Hst. destruct (bytes_eqb s t) eqn:E; [|reflexivity].
  now apply bytes_eqb_eq in E.
Qed.

Lemma len_nonneg {A : Type} (s : list A) : 0 <= len s.
Proof. unfold len. lia. Qed.

Lemma len_app {A : Type} (s t : list A) : len (s ++ t) = len s + len t.
Proof. unfold len. rewrite length_app. lia. Qed.

Lemma len_zero_iff {A : Type} (s : list A) : (len s =? 0) = true <-> s = [].
Proof.
  unfold len. rewrite Z.eqb_eq. destruct s; simpl; split; try easy; lia.
Qed.

Lemma len_pos_iff {A : Type} (s : list A) : (0 <? len s) = true <-> s <> [].
Proof.
  unfold len. rewrite Z.ltb_lt. destruct s; simpl; split; try easy; lia.
Qed.

Lemma slice_to_app (f v : Bytes) : slice_to (f ++ v) (len f) = f.
Proof.
  unfold slice_to, len. rewrite Nat2Z.id, firstn_app, Nat.sub_diag, firstn_all.
  simpl. apply app_nil_r.
Qed.

Lemma slice_from_app (f v : Bytes) : slice_from (f ++ v) (len f) = v.
Proof.
  unfold slice_from, len. rewrite Nat2Z.id, skipn_app, Nat.sub_diag, skipn_all.
  reflexivity.
Qed.

Lemma slice_from_app_1 (f : Bytes) (c : byte) (v : Bytes) :
  slice_from (f ++ c :: v) (len f + 1) = v.
Proof.
  replace (f ++ c :: v) with ((f ++ [c]) ++ v) by now rewrite <- app_assoc.
  replace (len f + 1) with (len (f ++ [c])) by (rewrite len_app; reflexivity).
  apply slice_from_app.
Qed.

Lemma IndexRune_ge (s : Bytes) (c : byte) : -1 <= IndexRune s c.
Proof.
  induction s as [|x s IH]; simpl; [lia|].
  destruct (Byte.eqb x c); [lia|].
  destruct (IndexRune s c =? -1); lia.
Qed.

Lemma IndexRune_lt (s : Bytes) (c : byte) : IndexRune s c < len s.
Proof.
  induction s as [|x s IH]; cbn [IndexRune]; [unfold len; simpl; lia|].
  assert (Hl : len (x :: s) = len s + 1) by (unfold len; simpl length; lia).
  pose proof (len_nonneg s).
  destruct (Byte.eqb x c); [lia|].
  destruct (IndexRune s c =? -1); lia.
Qed.

Lemma IndexRune_absent (s : Bytes) (c : byte) :
  IndexRune s c = -1 <-> ~ In c s.
Proof.
  induction s as [|x s IH]; simpl; [tauto|].
  destruct (Byte.eqb x c) eqn:E.
  - apply byte_eqb_eq in E. split; [discriminate | tauto].
  - apply byte_eqb_false_iff in E.
    pose proof (IndexRune_ge s c).
    destruct (IndexRune s c =? -1) eqn:E1.
    + apply Z.eqb_eq in E1. split; [tauto | reflexivity].
    + apply Z.eqb_neq in E1. split; [lia | tauto].
Qed.

Lemma IndexRune_first (f : Bytes) (c : byte) (v : Bytes) :
  ~ In c f -> IndexRune (f ++ c :: v) c = len f.
Proof.
  induction f as [|x f IH]; simpl; intros Hf.
  - now rewrite byte_eqb_refl.
  - rewrite byte_eqb_neq by tauto. rewrite IH by tauto.
    pose proof (len_nonneg f).
    destruct (len f =? -1) eqn:E; [apply Z.eqb_eq in E; lia|].
    unfold len. simpl length. lia.
Qed.

Lemma split_field_no_colon (line : Bytes) :
  ~ In colon line -> split_field line = (line, []).
Proof.
  intros H. apply IndexRune_absent in H. unfold split_field. now rewrite H.
Qed.

Lemma split_field_colon (f v : Bytes) :
  ~ In colon f -> split_field (f ++ colon :: v) = (f, strip_space v).
Proof.
  intros Hf. unfold split_field. rewrite IndexRune_first by assumption.
  pose proof (len_nonneg f).
  destruct (len f =? -1) eqn:E; [apply Z.eqb_eq in E; lia|]. simpl negb. cbv iota.
  rewrite slice_to_app, slice_from_app_1.
  destruct v as [|v0 v]; [reflexivity|]. simpl.
  destruct (Byte.eqb v0 space); reflexivity.
Qed.

(** ** Decimal digits *)

Lemma byte_to_Z_range (b : byte) : 0 <= byte_to_Z b <= 255.
Proof. unfold byte_to_Z. pose proof (Byte.to_N_bounded b). lia. Qed.

Lemma byte_to_of_Z (z : Z) : 0 <= z <= 255 -> byte_to_Z (byte_of_Z z) = z.
Proof.
  intros Hz. unfold byte_to_Z, byte_of_Z. rewrite Z.mod_small by lia.
  destruct (Byte.of_N (Z.to_N z)) as [b|] eqn:E.
  - apply Byte.to_of_N in E. lia.
  - apply Byte.of_N_None_iff in E. lia.
Qed.

Lemma digit_step (b : byte) :
  is_digit b <-> (9 <? (byte_to_Z b - 48) mod 256) = false.
Proof.
  unfold is_digit. pose proof (byte_to_Z_range b) as Hb.
  rewrite Z.ltb_ge. split.
  - intros H. rewrite Z.mod_small; lia.
  - intros H. destruct (Z_lt_le_dec (byte_to_Z b) 48) as [Hlt|Hge].
    + replace ((byte_to_Z b - 48) mod 256) with (byte_to_Z b + 208) in H; [lia|].
      apply Z.mod_unique with (q := -1); lia.
    + rewrite Z.mod_small in H; lia.
Qed.

Lemma atoi_digits_value (ds : Bytes) (n : Z) :
  Forall is_digit ds ->
  atoi_digits ds n =
  Some (fold_left (fun n b => n * 10 + (byte_to_Z b - 48)) ds n).
Proof.
  intros H. revert n. induction H as [|b ds Hb _ IH]; intros n; simpl; [reflexivity|].
  pose proof (proj1 (digit_step b) Hb) as E. rewrite E.
  unfold is_digit in Hb. rewrite Z.mod_small by lia. apply IH.
Qed.

Lemma atoi_digits_Some (ds : Bytes) (n m : Z) :
  atoi_digits ds n = Some m -> Forall is_digit ds.
Proof.
  revert n. induction ds as [|b ds IH]; simpl; intros n H; [constructor|].
  destruct (9 <? (byte_to_Z b - 48) mod 256) eqn:E; [discriminate|].
  constructor; [now apply digit_step | eauto].
Qed.

Lemma fmt_digits_digits (room : nat) (u : Z) (acc : Bytes) :
  0 <= u -> Forall is_digit acc -> Forall is_digit (fmt_digits room u acc).
Proof.
  revert u acc. induction room as [|room IH]; intros u acc Hu Hacc; cbn [fmt_digits]; [assumption|].
  destruct (10 <=? u) eqn:E.
  - apply Z.leb_le in E. apply IH; [apply Z.div_pos; lia|].
    constructor; [|assumption]. unfold is_digit.
    pose proof (Z.mod_pos_bound u 10 ltac:(lia)) as Hm.
    rewrite (Z.mod_eq u 10) in Hm by lia.
    rewrite byte_to_of_Z; lia.
  - apply Z.leb_gt in E. constructor; [|assumption]. unfold is_digit.
    rewrite byte_to_of_Z; lia.
Qed.

Lemma fmt_digits_length (room : nat) (u : Z) (acc : Bytes) :
  (length acc < length (fmt_digits (S room) u acc))%nat.
Proof.
  revert u acc. induction room as [|room IH]; intros u acc.
  - cbn [fmt_digits]. destruct (10 <=? u); cbn [length]; lia.
  - change (fmt_digits (S (S room)) u acc)
      with (if 10 <=? u
            then fmt_digits (S room) (u / 10)
                   (byte_of_Z (48 + u - u / 10 * 10) :: acc)
            else byte_of_Z (48 + u) :: acc).
    destruct (10 <=? u); [|cbn [length]; lia].
    specialize (IH (u / 10) (byte_of_Z (48 + u - u / 10 * 10) :: acc)).
    cbn [length] in IH. lia.
Qed.

Lemma atoi_fmt_digits (room : nat) (u : Z) (acc : Bytes) :
  0 <= u < 10 ^ Z.of_nat room ->
  atoi_digits (fmt_digits room u acc) 0 = atoi_digits acc u.
Proof.
  revert u acc. induction room as [|room IH]; intros u acc Hu.
  - cbn [fmt_digits]. replace u with 0 by (simpl in Hu; lia). reflexivity.
  - rewrite Nat2Z.inj_succ, Z.pow_succ_r in Hu by lia. cbn [fmt_digits].
    destruct (10 <=? u) eqn:E.
    + apply Z.leb_le in E.
      pose proof (Z.mod_pos_bound u 10 ltac:(lia)) as Hm.
      pose proof (Z.mod_eq u 10 ltac:(lia)) as He.
      rewrite IH.
      2:{ split; [apply Z.div_pos; lia | apply Z.div_lt_upper_bound; lia]. }
      cbn [atoi_digits]. rewrite byte_to_of_Z by lia.
      replace (48 + u - u / 10 * 10 - 48) with (u mod 10) by lia.
      rewrite Z.mod_small by lia.
      replace (9 <? u mod 10) with false by (symmetry; apply Z.ltb_ge; lia).
      f_equal. lia.
    + apply Z.leb_gt in E. cbn [atoi_digits]. rewrite byte_to_of_Z by lia.
      replace (48 + u - 48) with u by lia.
      rewrite Z.mod_small by lia.
      replace (9 <? u) with false by (symmetry; apply Z.ltb_ge; lia).
      reflexivity.
Qed.

(** [%d] writes decimal digits only, at least one, and they denote the
    value. *)
Lemma fmt_d_decimal (u : Z) :
  0 <= u <= maxUint ->
  fmt_d u <> [] /\ Forall is_digit (fmt_d u) /\ digits_value (fmt_d u) = u.
Proof.
  intros Hu. unfold fmt_d.
  assert (Hd : Forall is_digit (fmt_digits 20 u [])).
  { apply fmt_digits_digits; [lia | constructor]. }
  split; [|split; [exact Hd|]].
  - pose proof (fmt_digits_length 19 u []) as Hl.
    destruct (fmt_digits 20 u []); [simpl in Hl; lia | discriminate].
  - pose proof (atoi_fmt_digits 20 u []) as H.
    rewrite (atoi_digits_value _ 0 Hd) in H. simpl atoi_digits in H.
    unfold digits_value.
    assert (Hr : 0 <= u < 10 ^ Z.of_nat 20).
    { unfold maxUint, intSize in Hu. simpl in Hu |- *. lia. }
    specialize (H Hr). congruence.
Qed.

Lemma Atoi_fmt_d (u : Z) : 0 <= u <= maxInt -> Atoi (fmt_d u) = Some u.
Proof.
  intros Hu.
  assert (Hu' : 0 <= u <= maxUint).
  { unfold maxInt, maxUint, intSize in *. simpl in *. lia. }
  destruct (fmt_d_decimal u Hu') as (Hne & Hd & Hv).
  unfold Atoi. destruct (fmt_d u) as [|s0 rest] eqn:E; [congruence|].
  assert (H0 : is_digit s0) by now inversion Hd.
  assert (Hm : Byte.eqb s0 minus = false).
  { apply byte_eqb_neq. intros ->. unfold is_digit in H0.
    change (byte_to_Z minus) with 45 in H0. lia. }
  assert (Hp : Byte.eqb s0 plus = false).
  { apply byte_eqb_neq. intros ->. unfold is_digit in H0.
    change (byte_to_Z plus) with 43 in H0. lia. }
  rewrite Hm, Hp. simpl orb. cbv iota.
  replace (len (s0 :: rest) <? 1) with false.
  2:{ symmetry. apply Z.ltb_ge. unfold len. simpl length. lia. }
  rewrite (atoi_digits_value _ 0 Hd). fold (digits_value (s0 :: rest)).
  rewrite Hv.
  replace ((minInt <=? u) && (u <=? maxInt)) with true; [reflexivity|].
  symmetry. apply andb_true_iff. split; apply Z.leb_le;
    unfold minInt, maxInt, intSize in *; simpl in *; lia.
Qed.

Lemma is_digit_not_sign (b : byte) :
  is_digit b -> Byte.eqb b minus = false /\ Byte.eqb b plus = false.
Proof.
  unfold is_digit. intros H. split; apply byte_eqb_neq; intros ->.
  - change (byte_to_Z minus) with 45 in H. lia.
  - change (byte_to_Z plus) with 43 in H. lia.
Qed.

Lemma len_lt_1 {A : Type} (s : list A) : (len s <? 1) = false <-> s <> [].
Proof.
  unfold len. rewrite Z.ltb_ge. destruct s; simpl; split; try easy; lia.
Qed.

Lemma Atoi_digits (ds : Bytes) :
  ds <> [] -> Forall is_digit ds ->
  Atoi ds =
  if (minInt <=? digits_value ds) && (digits_value ds <=? maxInt)
  then Some (digits_value ds) else None.
Proof.
  intros Hne Hd. unfold Atoi. destruct ds as [|s0 rest]; [congruence|].
  destruct (is_digit_not_sign s0) as [Hm Hp]; [now inversion Hd|].
  rewrite Hm, Hp. cbn [orb].
  rewrite (proj2 (len_lt_1 (s0 :: rest)) Hne).
  now rewrite (atoi_digits_value _ 0 Hd).
Qed.

(** After the sign: the digits are there, they are digits, and the value
    passed the range check. *)
Ltac atoi_parsed ds :=
  let El := fresh "El" in
  let Ea := fresh "Ea" in
  let Er := fresh "Er" in
  let Hd := fresh "Hd" in
  destruct (len ds <? 1) eqn:El; [discriminate|]; apply len_lt_1 in El;
  destruct (atoi_digits ds 0) eqn:Ea; [|discriminate];
  pose proof (atoi_digits_Some _ _ _ Ea) as Hd;
  rewrite (atoi_digits_value _ 0 Hd) in Ea; injection Ea as <-;
  destruct (_ && _) eqn:Er; [|discriminate]; intros [= <-];
  apply andb_true_iff in Er; rewrite !Z.leb_le in Er;
  split; [now constructor | exact Er].

Ltac atoi_in_range Hr :=
  replace (_ && _) with true; [reflexivity|];
  symmetry; apply andb_true_iff; rewrite !Z.leb_le; exact Hr.

Lemma Atoi_spec (v : Bytes) (n : Z) :
  Atoi v = Some n <-> base10 v n /\ minInt <= n <= maxInt.
Proof.
  split.
  - unfold Atoi. destruct v as [|s0 rest]; [discriminate|].
    destruct (Byte.eqb s0 minus) eqn:Em; [|destruct (Byte.eqb s0 plus) eqn:Ep];
      cbn [orb]; cbv zeta.
    + apply byte_eqb_eq in Em. subst s0. atoi_parsed rest.
    + apply byte_eqb_eq in Ep. subst s0. atoi_parsed rest.
    + atoi_parsed (s0 :: rest).
  - intros [Hb Hr]. destruct Hb as [ds Hne Hd|ds Hne Hd|ds Hne Hd].
    + rewrite Atoi_digits by assumption. atoi_in_range Hr.
    + unfold Atoi. change (Byte.eqb plus minus) with false.
      change (Byte.eqb plus plus) with true. cbn [orb].
      rewrite (proj2 (len_lt_1 ds) Hne), (atoi_digits_value _ 0 Hd).
      fold (digits_value ds). atoi_in_range Hr.
    + unfold Atoi. change (Byte.eqb minus minus) with true. cbn [orb].
      rewrite (proj2 (len_lt_1 ds) Hne), (atoi_digits_value _ 0 Hd).
      fold (digits_value ds). atoi_in_range Hr.
Qed.

(** ** The loop body, case by case *)

Lemma process_line_blank (st : state) : process_line st [] = end_of_event st.
Proof. reflexivity. Qed.

Lemma process_line_comment (st : state) (c : Bytes) :
  HasPrefix c [colon] = true -> process_line st c = st.
Proof.
  intros H. unfold process_line. rewrite H.
  destruct c as [|c0 c]; [discriminate|].
  replace (len (c0 :: c) =? 0) with false; [reflexivity|].
  symmetry. apply Z.eqb_neq. unfold len. simpl length. lia.
Qed.

(** A line [f:v] whose name [f] is not empty. *)
Lemma process_line_field (st : state) (f v : Bytes) :
  f <> [] -> ~ In colon f ->
  process_line st (f ++ colon :: v) = process_field st f (strip_space v).
Proof.
  intros Hne Hf. unfold process_line. rewrite split_field_colon by assumption.
  destruct f as [|f0 f]; [congruence|].
  replace (len ((f0 :: f) ++ colon :: v) =? 0) with false.
  2:{ symmetry. apply Z.eqb_neq. unfold len. simpl length. lia. }
  cbn [app HasPrefix]. rewrite byte_eqb_neq; [reflexivity|].
  intros ->. apply Hf. now left.
Qed.

(** Any line whose field name is not empty reaches the [switch]. *)
Lemma process_line_split (st : state) (line f v : Bytes) :
  split_field line = (f, v) -> f <> [] ->
  process_line st line = process_field st f v.
Proof.
  intros Hs Hf. destruct line as [|c l].
  - cbv in Hs. congruence.
  - unfold process_line.
    replace (len (c :: l) =? 0) with false.
    2:{ symmetry. apply Z.eqb_neq. unfold len. simpl length. lia. }
    cbn [HasPrefix]. rewrite andb_true_r.
    destruct (Byte.eqb c colon) eqn:E; [|now rewrite Hs].
    exfalso. apply Hf. unfold split_field in Hs. cbn [IndexRune] in Hs.
    rewrite E in Hs. cbn in Hs. congruence.
Qed.

Lemma process_field_event (st : state) (v : Bytes) :
  process_field st (lit "event") v = with_event st (set_Event (event st) v).
Proof. reflexivity. Qed.

Lemma process_field_id (st : state) (v : Bytes) :
  process_field st (lit "id") v =
  if negb (Contains v [NUL]) then with_event st (set_ID (event st) v) else st.
Proof. reflexivity. Qed.

Lemma process_field_retry (st : state) (v : Bytes) :
  process_field st (lit "retry") v =
  match Atoi v with
  | Some retry =>
      if 0 <=? retry then with_event st (set_Retry (event st) (uint retry)) else st
  | None => st
  end.
Proof. reflexivity. Qed.

Lemma process_field_data (st : state) (v : Bytes) :
  process_field st (lit "data") v =
  {| dataLines := dataLines st ++ [v]; event := event st; events := events st |}.
Proof. reflexivity. Qed.

Lemma process_lines_app (st : state) (l1 l2 : list Bytes) :
  process_lines st (l1 ++ l2) = process_lines (process_lines st l1) l2.
Proof. apply fold_left_app. Qed.

Lemma process_lines_cons (st : state) (l : Bytes) (ls : list Bytes) :
  process_lines st (l :: ls) = process_lines (process_line st l) ls.
Proof. reflexivity. Qed.

(** ** [Split], [Join] and [ReplaceAll] on one-byte separators *)

Lemma Split_sep (c : byte) (s : Bytes) :
  Split (c :: s) [c] = [] :: Split s [c].
Proof. unfold Split. cbn [split_from HasPrefix]. now rewrite byte_eqb_refl. Qed.

Lemma Split_other (x c : byte) (s : Bytes) :
  x <> c -> Split (x :: s) [c] = cons_head x (Split s [c]).
Proof.
  intros H. unfold Split. cbn [split_from HasPrefix].
  now rewrite byte_eqb_neq by assumption.
Qed.

Lemma Split_piece (c : byte) (a s : Bytes) :
  ~ In c a -> Split (a ++ c :: s) [c] = a :: Split s [c].
Proof.
  induction a as [|x a IH]; intros Ha.
  - apply Split_sep.
  - cbn [app]. rewrite Split_other by (intros ->; apply Ha; now left).
    rewrite IH by (intros H; apply Ha; now right). reflexivity.
Qed.

Lemma Split_last (c : byte) (a : Bytes) : ~ In c a -> Split a [c] = [a].
Proof.
  induction a as [|x a IH]; intros Ha; [reflexivity|].
  rewrite Split_other by (intros ->; apply Ha; now left).
  rewrite IH by (intros H; apply Ha; now right). reflexivity.
Qed.

Lemma Join_cons (x : Bytes) (ls : list Bytes) (sep : Bytes) :
  ls <> [] -> Join (x :: ls) sep = x ++ sep ++ Join ls sep.
Proof. intros Hne. destruct ls; [now elim Hne | reflexivity]. Qed.

Lemma Split_Join (c : byte) (ls : list Bytes) :
  ls <> [] -> Forall (fun l => ~ In c l) ls -> Split (Join ls [c]) [c] = ls.
Proof.
  intros Hne H. revert Hne.
  induction H as [|l ls Hl Hls IH]; intros Hne; [now elim Hne|].
  destruct ls as [|l' ls].
  - cbn [Join]. now apply Split_last.
  - rewrite Join_cons by discriminate. cbn [app].
    rewrite Split_piece by assumption. f_equal. now apply IH.
Qed.

(** Each line written with its newline after it, the way [data] lines
    arrive; [Join] leaves the last newline out. *)
Lemma Join_newlines (ls : list Bytes) (sep : Bytes) :
  ls <> [] -> Join ls sep ++ sep = flat_map (fun l => l ++ sep) ls.
Proof.
  induction ls as [|l ls IH]; intros Hne; [now elim Hne|].
  destruct ls as [|l' ls].
  - cbn [Join flat_map]. now rewrite app_nil_r.
  - rewrite Join_cons by discriminate. cbn [flat_map] in *.
    rewrite <- IH by discriminate. now rewrite <- !app_assoc.
Qed.

Lemma TrimPrefix_app (p s : Bytes) : TrimPrefix (p ++ s) p = s.
Proof.
  unfold TrimPrefix.
  assert (H : HasPrefix (p ++ s) p = true).
  { induction p as [|x p IH]; [reflexivity|]. cbn [app HasPrefix].
    now rewrite byte_eqb_refl. }
  rewrite H. now rewrite skipn_app, skipn_all, Nat.sub_diag.
Qed.

Lemma TrimPrefix_none (p s : Bytes) : HasPrefix s p = false -> TrimPrefix s p = s.
Proof. intros H. unfold TrimPrefix. now rewrite H. Qed.

(** The first pass: a CR LF pair becomes one LF, every other byte stays. *)
Lemma ReplaceAll_CRLF_pair (s : Bytes) :
  ReplaceAll (CR :: LF :: s) [CR; LF] [LF] = LF :: ReplaceAll s [CR; LF] [LF].
Proof. reflexivity. Qed.

Lemma ReplaceAll_CRLF_other (x : byte) (s : Bytes) :
  x <> CR ->
  ReplaceAll (x :: s) [CR; LF] [LF] = x :: ReplaceAll s [CR; LF] [LF].
Proof.
  intros H. unfold ReplaceAll. cbn [replace_from HasPrefix].
  now rewrite byte_eqb_neq by assumption.
Qed.

Lemma ReplaceAll_CRLF_lone (s : Bytes) :
  HasPrefix s [LF] = false ->
  ReplaceAll (CR :: s) [CR; LF] [LF] = CR :: ReplaceAll s [CR; LF] [LF].
Proof.
  intros H. unfold ReplaceAll. destruct s as [|y s]; [reflexivity|].
  cbn [HasPrefix andb] in H. rewrite andb_true_r in H.
  cbn [replace_from HasPrefix]. rewrite byte_eqb_refl, H. reflexivity.
Qed.

Lemma ReplaceAll_CRLF_app (a s : Bytes) :
  ~ In CR a ->
  ReplaceAll (a ++ s) [CR; LF] [LF] = a ++ ReplaceAll s [CR; LF] [LF].
Proof.
  induction a as [|x a IH]; intros Ha; [reflexivity|]. cbn [app].
  rewrite ReplaceAll_CRLF_other by (intros ->; apply Ha; now left).
  rewrite IH by (intros H; apply Ha; now right). reflexivity.
Qed.

(** The second pass is bytewise. *)
Lemma ReplaceAll_CR_map (s : Bytes) :
  ReplaceAll s [CR] [LF] = map (fun b => if Byte.eqb b CR then LF else b) s.
Proof.
  unfold ReplaceAll. induction s as [|x s IH]; [reflexivity|].
  cbn [replace_from HasPrefix length Nat.sub map]. rewrite IH.
  destruct (Byte.eqb x CR); reflexivity.
Qed.

Lemma ReplaceAll_CR_id (s : Bytes) : ~ In CR s -> ReplaceAll s [CR] [LF] = s.
Proof.
  intros H. rewrite ReplaceAll_CR_map. induction s as [|x s IH]; [reflexivity|].
  cbn [map]. rewrite byte_eqb_neq by (intros ->; apply H; now left).
  rewrite IH by (intros H'; apply H; now right). reflexivity.
Qed.

Lemma ReplaceAll_CRLF_id (s : Bytes) : ~ In CR s -> ReplaceAll s [CR; LF] [LF] = s.
Proof.
  intros H. rewrite <- (app_nil_r s) at 1.
  rewrite ReplaceAll_CRLF_app by assumption. now rewrite app_nil_r.
Qed.

(** A buffer without CR and without a leading BOM is already normal. *)
Lemma normalize_id (s : Bytes) :
  HasPrefix s BOM = false -> ~ In CR s -> normalize s = s.
Proof.
  intros Hb Hc. unfold normalize. rewrite TrimPrefix_none by assumption.
  rewrite ReplaceAll_CRLF_id by assumption. now apply ReplaceAll_CR_id.
Qed.

(** ** What a line that is not blank leaves alone *)

Ltac case_field :=
  repeat match goal with
         | |- context [if ?b then _ else _] => destruct b
         | |- context [match Atoi ?v with _ => _ end] => destruct (Atoi v)
         end.

Lemma process_field_events (st : state) (f v : Bytes) :
  events (process_field st f v) = events st.
Proof. unfold process_field. case_field; reflexivity. Qed.

Lemma process_field_Data (st : state) (f v : Bytes) :
  Data (event (process_field st f v)) = Data (event st).
Proof. unfold process_field. case_field; reflexivity. Qed.

Lemma process_field_dataLines (st : state) (f v : Bytes) :
  f <> lit "data" -> dataLines (process_field st f v) = dataLines st.
Proof.
  intros Hf. unfold process_field.
  rewrite (bytes_eqb_neq f (lit "data")) by assumption.
  case_field; reflexivity.
Qed.

Lemma process_line_nonblank (st : state) (l : Bytes) :
  l <> [] ->
  process_line st l =
  if HasPrefix l [colon] then st
  else process_field st (fst (split_field l)) (snd (split_field l)).
Proof.
  intros Hl. unfold process_line.
  replace (len l =? 0) with false.
  2:{ symmetry. apply not_true_iff_false. now rewrite len_zero_iff. }
  destruct (HasPrefix l [colon]); [reflexivity|].
  now destruct (split_field l).
Qed.

Lemma process_line_events (st : state) (l : Bytes) :
  l <> [] -> events (process_line st l) = events st.
Proof.
  intros Hl. rewrite process_line_nonblank by assumption.
  destruct (HasPrefix l [colon]); [reflexivity | apply process_field_events].
Qed.

Lemma process_lines_events (st : state) (blk : list Bytes) :
  Forall (fun l => l <> []) blk -> events (process_lines st blk) = events st.
Proof.
  intros H. revert st. induction H as [|l blk Hl _ IH]; intros st; [reflexivity|].
  rewrite process_lines_cons, IH. now apply process_line_events.
Qed.

Lemma end_of_event_emits (st : state) :
  dataLines st <> [] \/ Event (event st) <> [] ->
  end_of_event st =
  {| dataLines := []; event := SSEvent_zero;
     events := events st ++ [completed st] |}.
Proof.
  intros H. unfold end_of_event, completed.
  destruct st as [dl [name data id retry] evs]. cbn [dataLines event events Event] in *.
  destruct dl as [|d dl].
  - destruct name as [|n0 name]; [destruct H as [H|H]; now elim H|]. reflexivity.
  - destruct name; reflexivity.
Qed.

Lemma end_of_event_skips (st : state) :
  dataLines st = [] -> Event (event st) = [] -> end_of_event st = st.
Proof. intros H1 H2. unfold end_of_event. now rewrite H1, H2. Qed.

(** ** The decoder fails only when the read fails *)

Lemma SSEventDecode_read (raw : Bytes) :
  SSEventDecode (NewReader raw) = (decode_bytes raw, None).
Proof. reflexivity. Qed.

(** ** The layout the encoder writes *)

Lemma SSEventEncode_layout (writer : Bytes) (e : SSEvent) (payload : Bytes) :
  Data e = Some (NewReader payload) ->
  SSEventEncode writer e = Returned (writer ++ layout e payload).
Proof.
  intros Hd. unfold layout.
  unfold SSEventEncode, Fprintf_s, Fprintf_d, Copy, WriteString, Flush, NewWriter.
  rewrite Hd. cbn [bind wr pending rd_bytes rd_err NewReader].
  destruct (Event e) as [|n0 name] eqn:En; destruct (ID e) as [|i0 id] eqn:Ei;
    destruct (0 <? Retry e) eqn:Er;
    repeat match goal with
           | |- context [0 <? len (?x :: ?s)] =>
               replace (0 <? len (x :: s)) with true
                 by (symmetry; now apply len_pos_iff)
           end;
    change (0 <? len (@nil byte)) with false;
    cbn [bind wr pending]; unfold field_line;
    change (lit ": ") with [colon; space];
    f_equal; repeat rewrite <- app_assoc; cbn [app]; reflexivity.
Qed.

(** C3: for an event whose payload reader delivers [payload] and ends with
    end of file, [SSEventEncode] appends to the sink, in this order: the
    [event] line if the name is not empty, the [id] line if the id is not
    empty, the [retry] line in decimal digits denoting the value if it is
    positive, then [data: ], the payload byte for byte, and two LF. *)
Theorem encode_layout (writer : Bytes) (e : SSEvent) (payload : Bytes) :
  Data e = Some (NewReader payload) ->
  SSEventEncode writer e =
  Returned (writer ++
            match Event e with
            | [] => []
            | name => lit "event: " ++ name ++ [LF]
            end ++
            match ID e with
            | [] => []
            | id => lit "id: " ++ id ++ [LF]
            end ++
            (if 0 <? Retry e then lit "retry: " ++ fmt_d (Retry e) ++ [LF] else []) ++
            lit "data: " ++ payload ++ [LF; LF]) /\
  (0 < Retry e <= maxUint ->
   fmt_d (Retry e) <> [] /\ Forall is_digit (fmt_d (Retry e)) /\
   digits_value (fmt_d (Retry e)) = Retry e).
Proof.
  intros Hd. split; [|intros Hr; apply fmt_d_decimal; lia].
  now rewrite (SSEventEncode_layout writer e payload Hd).
Qed.

Lemma encode_layout_witness :
  SSEventEncode [] full_event =
  Returned (lit "event: message" ++ [LF] ++ lit "id: 123" ++ [LF] ++
            lit "retry: 3000" ++ [LF] ++ lit "data: hello" ++ [LF] ++
            lit "world" ++ [LF; LF]) /\
  digits_value (fmt_d 3000) = 3000.
Proof.
  destruct (encode_layout [] full_event (lit "hello" ++ [LF] ++ lit "world") eq_refl)
    as [H1 H2].
  split; [exact H1|].
  apply H2. vm_compute. intuition discriminate.
Defined.

(** ** Blank lines *)

(** C4: an empty line completes an event exactly when a data line or an
    event name is pending: the event gets the name ["message"] if it has
    none and the pending data lines joined by LF as payload, and the loop
    starts afresh; with nothing pending an empty line changes nothing; no
    other line adds an event, so the lines after the last empty line add
    none. *)
Theorem blank_line_is_event_boundary :
  (forall st, dataLines st <> [] \/ Event (event st) <> [] ->
     process_line st [] =
     {| dataLines := []; event := SSEvent_zero;
        events := events st ++
          [{| Event := match Event (event st) with
                       | [] => lit "message"
                       | name => name
                       end;
              Data := match dataLines st with
                      | [] => Data (event st)
                      | lines => Some (NewReader (Join lines [LF]))
                      end;
              ID := ID (event st);
              Retry := Retry (event st) |}] |}) /\
  (forall st, dataLines st = [] -> Event (event st) = [] ->
     process_line st [] = st) /\
  (forall st l, l <> [] -> events (process_line st l) = events st) /\
  (forall raw pre blk,
     Split (normalize raw) [LF] = pre ++ blk ->
     Forall (fun l => l <> []) blk ->
     decode_bytes raw = events (process_lines state_init pre)) /\
  decode_bytes input_blank_lines =
    [{| Event := lit "t"; Data := Some (NewReader (lit "d"));
        ID := []; Retry := 0 |}] /\
  decode_bytes input_unterminated =
    [{| Event := lit "a"; Data := Some (NewReader (lit "b"));
        ID := []; Retry := 0 |}].
Proof.
  split; [|split; [|split; [|split; [|split]]]].
  - intros st H. rewrite process_line_blank. now apply end_of_event_emits.
  - intros st H1 H2. rewrite process_line_blank. now apply end_of_event_skips.
  - intros st l Hl. now apply process_line_events.
  - intros raw pre blk Hs Hb. unfold decode_bytes. rewrite Hs.
    rewrite process_lines_app. now apply process_lines_events.
  - reflexivity.
  - reflexivity.
Qed.

Lemma blank_line_is_event_boundary_witness :
  process_line
    {| dataLines := [lit "a"; lit "b"]; event := SSEvent_zero; events := [] |} [] =
  {| dataLines := []; event := SSEvent_zero;
     events := [{| Event := lit "message";
                   Data := Some (NewReader (lit "a" ++ [LF] ++ lit "b"));
                   ID := []; Retry := 0 |}] |}.
Proof.
  apply (proj1 blank_line_is_event_boundary
           {| dataLines := [lit "a"; lit "b"]; event := SSEvent_zero; events := [] |}).
  left. discriminate.
Defined.

(** ** A nil payload *)

Lemma process_lines_no_data (st : state) (blk : list Bytes) :
  Forall (fun l => l <> [] /\ fst (split_field l) <> lit "data") blk ->
  dataLines (process_lines st blk) = dataLines st /\
  Data (event (process_lines st blk)) = Data (event st) /\
  events (process_lines st blk) = events st.
Proof.
  intros H. revert st. induction H as [|l blk [Hl Hf] _ IH]; intros st.
  - now repeat split.
  - rewrite process_lines_cons. destruct (IH (process_line st l)) as (-> & -> & ->).
    rewrite process_line_nonblank by assumption.
    destruct (HasPrefix l [colon]); [now repeat split|].
    rewrite process_field_dataLines, process_field_Data, process_field_events
      by assumption.
    now repeat split.
Qed.

(** C10: [SSEventEncode] panics on every event whose [Data] is nil, and
    [SSEventDecode] returns such events: a block of lines that sets an event
    name and has no [data] line is completed with [Data] nil. *)
Theorem encode_nil_data_panics :
  (forall writer e, Data e = None -> SSEventEncode writer e = Panicked) /\
  (forall st blk,
     dataLines st = [] -> Data (event st) = None ->
     Forall (fun l => l <> [] /\ fst (split_field l) <> lit "data") blk ->
     Event (event (process_lines st blk)) <> [] ->
     exists ev,
       events (process_lines st (blk ++ [[]])) = events st ++ [ev] /\
       Data ev = None /\
       forall writer, SSEventEncode writer ev = Panicked) /\
  decode_bytes (lit "event: x" ++ [LF; LF]) =
    [{| Event := lit "x"; Data := None; ID := []; Retry := 0 |}].
Proof.
  assert (Hp : forall writer e, Data e = None -> SSEventEncode writer e = Panicked).
  { intros writer e He. unfold SSEventEncode. rewrite He.
    unfold Fprintf_s, Fprintf_d, WriteString, Copy.
    destruct (0 <? len (Event e)); destruct (0 <? len (ID e));
      destruct (0 <? Retry e); reflexivity. }
  split; [exact Hp|split; [|reflexivity]].
  intros st blk Hdl Hda Hblk Hname.
  destruct (process_lines_no_data st blk Hblk) as (Hdl' & Hda' & Hev').
  rewrite process_lines_app. cbn [process_lines fold_left].
  rewrite process_line_blank, end_of_event_emits by (now right).
  cbn [events]. rewrite Hev'.
  eexists. split; [reflexivity|].
  assert (Hnil : Data (completed (process_lines st blk)) = None).
  { unfold completed. cbn [Data]. rewrite Hdl', Hdl, Hda'. exact Hda. }
  split; [exact Hnil | intros writer; now apply Hp].
Qed.

Lemma encode_nil_data_panics_witness :
  SSEventEncode [] {| Event := lit "x"; Data := None; ID := []; Retry := 0 |} =
  Panicked.
Proof. apply (proj1 encode_nil_data_panics). reflexivity. Defined.

(** ** Field lines *)

Ltac no_colon := vm_compute; intuition discriminate.

Lemma process_lines_data (st : state) (vs : list Bytes) :
  process_lines st (map (fun v => lit "data" ++ colon :: v) vs) =
  {| dataLines := dataLines st ++ map strip_space vs;
     event := event st; events := events st |}.
Proof.
  revert st. induction vs as [|v vs IH]; intros st.
  - cbn [map process_lines fold_left]. rewrite app_nil_r. now destruct st.
  - cbn [map]. rewrite process_lines_cons, IH.
    rewrite process_line_field by (discriminate || no_colon).
    rewrite process_field_data. cbn [dataLines event events].
    now rewrite <- app_assoc.
Qed.

(** C5: a field line is cut at its first colon, and a line without a colon
    is a name with an empty value; of the value exactly one leading space
    goes, so a second one stays; the values of the [data] lines of a block
    become the payload, joined by LF, which is what is left of the values
    each followed by LF when the last LF is taken away. *)
Theorem field_line_split :
  (forall line, ~ In colon line -> split_field line = (line, [])) /\
  (forall f v, ~ In colon f ->
     split_field (f ++ colon :: v) =
     (f, match v with
         | v0 :: v' => if Byte.eqb v0 space then v' else v
         | [] => []
         end)) /\
  (forall f w, ~ In colon f -> split_field (f ++ colon :: space :: w) = (f, w)) /\
  (forall vs, vs <> [] ->
     events (process_lines state_init
               (map (fun v => lit "data" ++ colon :: space :: v) vs ++ [[]])) =
     [{| Event := lit "message"; Data := Some (NewReader (Join vs [LF]));
         ID := []; Retry := 0 |}] /\
     Join vs [LF] ++ [LF] = flat_map (fun v => v ++ [LF]) vs) /\
  decode_bytes input_three_data =
    [{| Event := lit "message";
        Data := Some (NewReader (lit "a" ++ [LF] ++ lit "b" ++ [LF] ++ lit "c"));
        ID := []; Retry := 0 |}] /\
  decode_bytes input_two_spaces =
    [{| Event := lit "message"; Data := Some (NewReader (lit " two spaces"));
        ID := []; Retry := 0 |}].
Proof.
  split; [|split; [|split; [|split; [|split]]]].
  - apply split_field_no_colon.
  - intros f v Hf. now rewrite split_field_colon.
  - intros f w Hf. now rewrite split_field_colon.
  - intros vs Hne. split; [|now apply Join_newlines].
    rewrite process_lines_app.
    replace (map (fun v => lit "data" ++ colon :: space :: v) vs)
      with (map (fun v => lit "data" ++ colon :: v) (map (cons space) vs))
      by (rewrite map_map; reflexivity).
    rewrite process_lines_data. cbn [process_lines fold_left].
    rewrite process_line_blank, end_of_event_emits.
    + unfold completed. cbn [events dataLines event state_init app].
      rewrite map_map. cbn [strip_space].
      change (Byte.eqb space space) with true. cbv iota. rewrite map_id.
      destruct vs as [|v vs]; [now elim Hne | reflexivity].
    + left. cbn [dataLines state_init app]. destruct vs; [now elim Hne | discriminate].
  - reflexivity.
  - reflexivity.
Qed.

Lemma field_line_split_witness :
  split_field (lit "data" ++ colon :: space :: lit " two spaces") =
  (lit "data", lit " two spaces").
Proof.
  apply (proj1 (proj2 (proj2 field_line_split))). no_colon.
Defined.

(** ** The [retry] field *)

Lemma uint_small (n : Z) : 0 <= n <= maxInt -> uint n = n.
Proof.
  intros H. unfold uint. apply Z.mod_small.
  unfold maxInt, intSize in *. simpl in *. lia.
Qed.

Lemma process_line_retry (st : state) (v : Bytes) :
  process_line st (lit "retry: " ++ v) = process_field st (lit "retry") v.
Proof.
  change (lit "retry: " ++ v) with (lit "retry" ++ colon :: space :: v).
  rewrite process_line_field by (discriminate || no_colon). reflexivity.
Qed.

(** C6: a [retry] line sets [Retry] only when its value is a base-10
    integer, digits to the end, that is not negative (and fits an [int]);
    in every other case the line changes nothing, and the decoder returns no
    error: with the values [invalid], [-100] and [100ms] the event has
    [Retry] 0. *)
Theorem retry_field_strict :
  (forall st line v n,
     split_field line = (lit "retry", v) ->
     base10 v n -> 0 <= n <= maxInt ->
     process_line st line = with_event st (set_Retry (event st) n)) /\
  (forall st line v,
     split_field line = (lit "retry", v) ->
     (forall n, base10 v n -> n < 0 \/ maxInt < n) ->
     process_line st line = st) /\
  (forall bad, In bad [lit "invalid"; lit "-100"; lit "100ms"] ->
     SSEventDecode (NewReader (retry_input bad)) =
     ([{| Event := lit "message"; Data := Some (NewReader (lit "test"));
          ID := []; Retry := 0 |}], None)).
Proof.
  split; [|split].
  - intros st line v n Hs Hb Hn.
    rewrite (process_line_split st line _ _ Hs) by discriminate.
    rewrite process_field_retry.
    assert (Ha : Atoi v = Some n).
    { apply Atoi_spec. split; [assumption|].
      unfold minInt, maxInt, intSize in *. simpl in *. lia. }
    rewrite Ha. replace (0 <=? n) with true by (symmetry; apply Z.leb_le; lia).
    now rewrite uint_small.
  - intros st line v Hs Hbad.
    rewrite (process_line_split st line _ _ Hs) by discriminate.
    rewrite process_field_retry.
    destruct (Atoi v) as [n|] eqn:Ha; [|reflexivity].
    apply Atoi_spec in Ha. destruct Ha as [Hb Hr].
    destruct (Hbad n Hb) as [Hneg|Hbig]; [|lia].
    replace (0 <=? n) with false by (symmetry; apply Z.leb_gt; lia).
    reflexivity.
  - intros bad [<-|[<-|[<-|[]]]]; reflexivity.
Qed.

Lemma retry_field_strict_witness :
  process_line state_init (lit "retry: 3000") =
  with_event state_init (set_Retry SSEvent_zero 3000).
Proof.
  apply (proj1 retry_field_strict state_init (lit "retry: 3000") (lit "3000") 3000).
  - reflexivity.
  - apply (base10_unsigned (lit "3000")); [discriminate|].
    repeat constructor; vm_compute; intuition discriminate.
  - vm_compute. intuition discriminate.
Defined.

(** ** The [id] field *)

Lemma Contains_byte (v : Bytes) (c : byte) : Contains v [c] = true <-> In c v.
Proof.
  induction v as [|x v IH]; cbn [Contains HasPrefix In].
  - split; [discriminate | tauto].
  - rewrite andb_true_r, orb_true_iff, byte_eqb_eq, IH. tauto.
Qed.

Lemma process_line_id (st : state) (v : Bytes) :
  process_line st (lit "id: " ++ v) = process_field st (lit "id") v.
Proof.
  change (lit "id: " ++ v) with (lit "id" ++ colon :: space :: v).
  rewrite process_line_field by (discriminate || no_colon). reflexivity.
Qed.







(** ** Comment lines *)

(** C9: a line that starts with a colon changes nothing in the loop, neither
    the event in progress nor the pending data lines; so when the lines of
    one normalized input are those of another with one comment line put in
    at some place, the two inputs decode to the same events. *)
Theorem comment_lines_are_ignored :
  (forall st c, HasPrefix c [colon] = true -> process_line st c = st) /\
  (forall raw raw' pre c post,
     HasPrefix c [colon] = true ->
     Split (normalize raw) [LF] = pre ++ post ->
     Split (normalize raw') [LF] = pre ++ c :: post ->
     decode_bytes raw' = decode_bytes raw) /\
  decode_bytes input_commented = decode_bytes input_uncommented.
Proof.
  split; [|split].
  - apply process_line_comment.
  - intros raw raw' pre c post Hc Hr Hr'. unfold decode_bytes.
    rewrite Hr, Hr', !process_lines_app, process_lines_cons.
    now rewrite process_line_comment.
  - reflexivity.
Qed.

Lemma comment_lines_are_ignored_witness :
  decode_bytes input_commented = decode_bytes input_uncommented.
Proof.
  apply (proj1 (proj2 comment_lines_are_ignored)
           input_uncommented input_commented [] (lit ": c")
           [lit "event: t"; lit "data: d"; []; []]);
    reflexivity.
Defined.

(** ** Line endings and the byte-order mark *)

Lemma render_starts_LF (segs : list (Bytes * ending)) (tail : Bytes) :
  Forall plain (map fst segs) -> plain tail ->
  HasPrefix (render segs tail) [LF] = true ->
  exists segs', segs = ([], EndLF) :: segs'.
Proof.
  intros Hs Ht H. destruct segs as [|[l e] segs].
  - cbn [render] in H. destruct tail as [|t0 tail]; [discriminate|].
    cbn [HasPrefix] in H. rewrite andb_true_r in H. apply byte_eqb_eq in H.
    subst t0. destruct Ht as [_ Ht]. elim Ht. now left.
  - cbn [map fst] in Hs. inversion Hs as [|? ? [_ Hl] _]; subst.
    destruct l as [|l0 l].
    + destruct e; [now eexists | discriminate | discriminate].
    + cbn [render app HasPrefix] in H. rewrite andb_true_r in H.
      apply byte_eqb_eq in H. subst l0. elim Hl. now left.
Qed.

Lemma render_first_pass (segs : list (Bytes * ending)) (tail : Bytes) :
  Forall plain (map fst segs) -> plain tail -> greedy segs = true ->
  ReplaceAll (render segs tail) [CR; LF] [LF] = render (map soften segs) tail.
Proof.
  intros Hs Ht. induction segs as [|[l e] segs IH]; intros Hg.
  - cbn [render map]. apply ReplaceAll_CRLF_id. apply Ht.
  - cbn [map fst] in Hs. inversion Hs as [|? ? [Hl _] Hs']; subst.
    cbn [greedy] in Hg. apply andb_true_iff in Hg. destruct Hg as [Hg1 Hg2].
    specialize (IH Hs' Hg2).
    cbn [render map soften fst snd]. rewrite ReplaceAll_CRLF_app by assumption.
    f_equal. destruct e; cbn [ending_bytes app].
    + rewrite ReplaceAll_CRLF_other by discriminate. now rewrite IH.
    + rewrite ReplaceAll_CRLF_pair. now rewrite IH.
    + rewrite ReplaceAll_CRLF_lone; [now rewrite IH|].
      destruct (HasPrefix (render segs tail) [LF]) eqn:E; [|reflexivity].
      destruct (render_starts_LF segs tail Hs' Ht E) as [segs' ->].
      discriminate.
Qed.

Lemma render_second_pass (segs : list (Bytes * ending)) (tail : Bytes) :
  Forall plain (map fst segs) -> plain tail ->
  ReplaceAll (render (map soften segs) tail) [CR] [LF] =
  render (map with_LF segs) tail.
Proof.
  intros Hs Ht. induction segs as [|[l e] segs IH].
  - cbn [render map]. apply ReplaceAll_CR_id. apply Ht.
  - cbn [map fst] in Hs. inversion Hs as [|? ? [Hl _] Hs']; subst.
    specialize (IH Hs'). rewrite ReplaceAll_CR_map in *.
    cbn [render map soften with_LF fst snd]. rewrite !map_app, IH.
    rewrite <- ReplaceAll_CR_map, ReplaceAll_CR_id by assumption.
    f_equal. destruct e; reflexivity.
Qed.

Lemma render_with_LF (segs : list (Bytes * ending)) (tail : Bytes) :
  render (map with_LF segs) tail = all_LF segs tail.
Proof.
  unfold all_LF. induction segs as [|[l e] segs IH]; [reflexivity|].
  cbn [map render with_LF fst ending_bytes app]. rewrite IH.
  rewrite Join_cons by (destruct segs; discriminate). reflexivity.
Qed.

Lemma all_LF_with_LF (segs : list (Bytes * ending)) (tail : Bytes) :
  all_LF (map with_LF segs) tail = all_LF segs tail.
Proof. unfold all_LF. now rewrite map_map. Qed.

Lemma greedy_with_LF (segs : list (Bytes * ending)) :
  greedy (map with_LF segs) = true.
Proof.
  induction segs as [|[l e] segs IH]; [reflexivity|].
  cbn [map greedy with_LF fst]. now rewrite IH.
Qed.

Lemma HasPrefix_BOM_line (l : Bytes) (c : byte) (rest : Bytes) :
  c = LF \/ c = CR -> HasPrefix (l ++ c :: rest) BOM = HasPrefix l BOM.
Proof.
  intros Hc.
  assert (H1 : Byte.eqb c xef = false) by (destruct Hc; subst; reflexivity).
  assert (H2 : Byte.eqb c xbb = false) by (destruct Hc; subst; reflexivity).
  assert (H3 : Byte.eqb c xbf = false) by (destruct Hc; subst; reflexivity).
  destruct l as [|a [|b [|d l]]]; cbn [app HasPrefix BOM];
    rewrite ?H1, ?H2, ?H3, ?andb_false_r; reflexivity.
Qed.

Lemma render_BOM (segs : list (Bytes * ending)) (tail : Bytes) :
  HasPrefix (render segs tail) BOM = HasPrefix (all_LF segs tail) BOM.
Proof.
  rewrite <- render_with_LF. destruct segs as [|[l e] segs]; [reflexivity|].
  cbn [map render with_LF fst ending_bytes app].
  rewrite HasPrefix_BOM_line by (now left).
  destruct e; cbn [ending_bytes app]; apply HasPrefix_BOM_line; tauto.
Qed.

Lemma normalize_render (segs : list (Bytes * ending)) (tail : Bytes) :
  Forall plain (map fst segs) -> plain tail -> greedy segs = true ->
  HasPrefix (all_LF segs tail) BOM = false ->
  normalize (render segs tail) = all_LF segs tail /\
  normalize (BOM ++ render segs tail) = all_LF segs tail.
Proof.
  intros Hs Ht Hg Hb. unfold normalize.
  rewrite TrimPrefix_app, TrimPrefix_none by (now rewrite render_BOM).
  rewrite render_first_pass, render_second_pass, render_with_LF by assumption.
  now split.
Qed.

Lemma normalize_BOM (s : Bytes) : normalize (BOM ++ s) = normalize_endings s.
Proof. unfold normalize, normalize_endings. now rewrite TrimPrefix_app. Qed.

Lemma normalize_no_BOM (s : Bytes) :
  HasPrefix s BOM = false -> normalize s = normalize_endings s.
Proof.
  intros H. unfold normalize, normalize_endings. now rewrite TrimPrefix_none.
Qed.

Lemma normalize_endings_BOM (s : Bytes) :
  normalize_endings (BOM ++ s) = BOM ++ normalize_endings s.
Proof.
  unfold normalize_endings.
  rewrite ReplaceAll_CRLF_app by (vm_compute; intuition discriminate).
  rewrite !ReplaceAll_CR_map, map_app. reflexivity.
Qed.

(** C8, as stated, fails: two inputs that differ only in a leading BOM, the
    second BOM being left in the first field name. *)
Lemma second_BOM_is_not_stripped :
  decode_bytes (BOM ++ input_with_BOM) = [] /\
  decode_bytes input_with_BOM =
    [{| Event := lit "message"; Data := Some (NewReader (lit "x"));
        ID := []; Retry := 0 |}] /\
  normalize (BOM ++ input_with_BOM) = input_with_BOM.
Proof. repeat split; reflexivity. Qed.

(** C8, amended: the decoder takes exactly one leading BOM away (a second
    one stays, as bytes of the first line), then turns every CR LF pair
    into one LF and after that every CR left into LF.  So a text written
    with any mixture of the three line endings, CR LF being one ending, is
    normalized to the same text with LF after every line; and when the text
    does not itself start with a BOM, it decodes, with or without one BOM in
    front, to the same events as the text with LF after every line. *)
Theorem endings_and_one_BOM_are_normalized :
  (forall s, normalize (BOM ++ s) = normalize_endings s) /\
  (forall s, HasPrefix s BOM = false -> normalize s = normalize_endings s) /\
  (forall s, normalize_endings (BOM ++ s) = BOM ++ normalize_endings s) /\
  (forall segs tail,
     Forall plain (map fst segs) -> plain tail -> greedy segs = true ->
     normalize_endings (render segs tail) = all_LF segs tail) /\
  (forall segs tail,
     Forall plain (map fst segs) -> plain tail -> greedy segs = true ->
     HasPrefix (all_LF segs tail) BOM = false ->
     normalize (render segs tail) = all_LF segs tail /\
     normalize (BOM ++ render segs tail) = all_LF segs tail /\
     decode_bytes (render segs tail) = decode_bytes (all_LF segs tail) /\
     decode_bytes (BOM ++ render segs tail) = decode_bytes (all_LF segs tail) /\
     decode_bytes (BOM ++ all_LF segs tail) = decode_bytes (all_LF segs tail)) /\
  normalize [CR; LF] = [LF] /\
  decode_bytes input_with_BOM =
    [{| Event := lit "message"; Data := Some (NewReader (lit "x"));
        ID := []; Retry := 0 |}].
Proof.
  split; [apply normalize_BOM|]. split; [apply normalize_no_BOM|].
  split; [apply normalize_endings_BOM|].
  split; [|split; [|split; reflexivity]].
  - intros segs tail Hs Ht Hg. unfold normalize_endings.
    now rewrite render_first_pass, render_second_pass, render_with_LF.
  - intros segs tail Hs Ht Hg Hb.
    destruct (normalize_render segs tail Hs Ht Hg Hb) as [H1 H2].
    assert (H3 : normalize (all_LF segs tail) = all_LF segs tail).
    { destruct (normalize_render (map with_LF segs) tail) as [H _].
      - rewrite map_map. exact Hs.
      - exact Ht.
      - apply greedy_with_LF.
      - rewrite all_LF_with_LF. exact Hb.
      - rewrite render_with_LF, all_LF_with_LF in H. exact H. }
    assert (H4 : normalize (BOM ++ all_LF segs tail) = all_LF segs tail).
    { unfold normalize in *. rewrite TrimPrefix_app.
      now rewrite TrimPrefix_none in H3 by assumption. }
    unfold decode_bytes. rewrite H1, H2, H3, H4. repeat split; reflexivity.
Qed.

Lemma endings_and_one_BOM_are_normalized_witness :
  decode_bytes (BOM ++ render mixed_endings []) =
  decode_bytes (all_LF mixed_endings []).
Proof.
  apply (proj1 (proj2 (proj2 (proj2 (proj2 endings_and_one_BOM_are_normalized))))
           mixed_endings []).
  - repeat constructor; vm_compute; intuition discriminate.
  - split; intros [].
  - reflexivity.
  - reflexivity.
Defined.

(** Why [greedy]: a CR ending, an empty line and an LF ending are the Bytes
    of one CR LF ending. *)
Remark CR_then_LF_is_CRLF (l : Bytes) (segs : list (Bytes * ending)) (tail : Bytes) :
  render ((l, EndCR) :: ([], EndLF) :: segs) tail =
  render ((l, EndCRLF) :: segs) tail.
Proof. reflexivity. Qed.

(** ** Encoding, then decoding *)

Lemma plain_app (s t : Bytes) : plain s -> plain t -> plain (s ++ t).
Proof.
  unfold plain. intros [H1 H2] [H3 H4]. rewrite !in_app_iff. tauto.
Qed.

Lemma digits_plain (ds : Bytes) : Forall is_digit ds -> plain ds.
Proof.
  intros H. induction H as [|d ds Hd _ [IH1 IH2]]; [split; intros []|].
  unfold is_digit in Hd. split; intros [->|Hin]; try tauto.
  - change (byte_to_Z CR) with 13 in Hd. lia.
  - change (byte_to_Z LF) with 10 in Hd. lia.
Qed.

Lemma Join_no_byte (c sep : byte) (ls : list Bytes) :
  c <> sep -> Forall (fun l => ~ In c l) ls -> ~ In c (Join ls [sep]).
Proof.
  intros Hc H. induction H as [|l ls Hl Hls IH]; [intros []|].
  destruct ls as [|l' ls]; [exact Hl|].
  rewrite Join_cons by discriminate. rewrite !in_app_iff. cbn [In].
  intros [H|[[H|[]]|H]]; [tauto | congruence | tauto].
Qed.

Lemma encode_full (e : SSEvent) (payload : Bytes) :
  Event e <> [] -> ID e <> [] -> 0 < Retry e ->
  Data e = Some (NewReader payload) ->
  SSEventEncode [] e = Returned (Join (encoded_lines e payload) [LF]).
Proof.
  intros He Hi Hr Hd. rewrite (SSEventEncode_layout [] e payload Hd).
  unfold encoded_lines, layout.
  destruct (Event e) as [|n0 name]; [now elim He|].
  destruct (ID e) as [|i0 id]; [now elim Hi|].
  replace (0 <? Retry e) with true by (symmetry; now apply Z.ltb_lt).
  unfold field_line. cbn [Join].
  f_equal. repeat rewrite <- app_assoc. reflexivity.
Qed.

Lemma decode_encoded_lines (e : SSEvent) (payload : Bytes) :
  Event e <> [] -> ~ In NUL (ID e) -> 0 < Retry e <= maxInt ->
  events (process_lines state_init (encoded_lines e payload)) =
  [{| Event := Event e; Data := Some (NewReader payload);
      ID := ID e; Retry := Retry e |}].
Proof.
  intros He Hn Hr. unfold encoded_lines.
  change (lit "event: " ++ Event e) with (lit "event" ++ colon :: space :: Event e).
  change (lit "data: " ++ payload) with (lit "data" ++ colon :: space :: payload).
  rewrite !process_lines_cons.
  rewrite (process_line_field _ (lit "event")) by (discriminate || no_colon).
  rewrite process_line_id, process_line_retry.
  rewrite (process_line_field _ (lit "data")) by (discriminate || no_colon).
  cbn [strip_space]. change (Byte.eqb space space) with true. cbv iota.
  rewrite process_field_event, process_field_id.
  replace (Contains (ID e) [NUL]) with false.
  2:{ symmetry. apply not_true_iff_false. now rewrite Contains_byte. }
  cbn [negb]. rewrite process_field_retry, Atoi_fmt_d by lia.
  replace (0 <=? Retry e) with true by (symmetry; apply Z.leb_le; lia).
  rewrite uint_small by lia. rewrite process_field_data.
  cbn [event dataLines events with_event set_Event set_ID set_Retry state_init
       Event Data ID Retry SSEvent_zero app].
  rewrite !process_line_blank.
  match goal with
  | |- context [end_of_event (end_of_event ?st)] =>
      rewrite (end_of_event_emits st) by (left; cbn [dataLines]; discriminate)
  end.
  rewrite end_of_event_skips by reflexivity.
  cbn [process_lines fold_left events app]. unfold completed.
  cbn [event dataLines with_event set_Event set_ID set_Retry state_init
       Event Data ID Retry SSEvent_zero app Join].
  destruct (Event e); [now elim He | reflexivity].
Qed.

Ltac refute_round_trip :=
  let out := fresh "out" in
  let Henc := fresh "Henc" in
  let Hdec := fresh "Hdec" in
  intros (out & Henc & Hdec);
  vm_compute in Henc; injection Henc as <-;
  vm_compute in Hdec; discriminate Hdec.

(** C1, as stated, fails: the event has a name, an id, a positive retry and
    a payload without a newline, but its id holds a NUL byte, which the
    decoder drops. *)
Lemma round_trip_fails_on_NUL_id :
  Event event_with_NUL_id <> [] /\
  ID event_with_NUL_id <> [] /\
  0 < Retry event_with_NUL_id /\
  Data event_with_NUL_id = Some (NewReader (lit "d")) /\
  ~ In LF (lit "d") /\
  ~ round_trips event_with_NUL_id /\
  exists out,
    SSEventEncode [] event_with_NUL_id = Returned out /\
    SSEventDecode (NewReader out) = ([set_ID event_with_NUL_id []], None).
Proof.
  repeat split; try discriminate; try reflexivity.
  - vm_compute. intuition discriminate.
  - refute_round_trip.
  - eexists. split; reflexivity.
Qed.

(** The other ways the round trip fails: a line ending inside the name (or
    the id), a CR inside the payload, a retry above the largest [int]. *)
Remark round_trip_other_failures :
  ~ round_trips event_with_LF_name /\
  ~ round_trips event_with_CR_payload /\
  ~ round_trips event_with_large_retry.
Proof. repeat split; refute_round_trip. Qed.

(** C1, amended: an event with a name and an id that are not empty and hold
    no CR and no LF, the id no NUL either, with a retry from 1 to the largest
    [int] and a payload without CR and LF, is written by [SSEventEncode] as
    Bytes that [SSEventDecode] turns back into that event alone, equal in
    all four fields. *)
Theorem round_trip (e : SSEvent) (payload : Bytes) :
  Event e <> [] -> plain (Event e) ->
  ID e <> [] -> plain (ID e) -> ~ In NUL (ID e) ->
  0 < Retry e <= maxInt ->
  Data e = Some (NewReader payload) -> plain payload ->
  round_trips e.
Proof.
  intros He Hpe Hi Hpi Hn Hr Hd Hpp.
  exists (Join (encoded_lines e payload) [LF]). split.
  - apply encode_full; try assumption; lia.
  - assert (Hplain : Forall plain (encoded_lines e payload)).
    { assert (Hlit : forall s, plain (lit s) -> forall t, plain t -> plain (lit s ++ t)).
      { intros s Hs t Ht. now apply plain_app. }
      assert (Hf : plain (fmt_d (Retry e))).
      { apply digits_plain. apply fmt_d_decimal.
        unfold maxUint, maxInt, intSize in *. simpl in *. lia. }
      unfold encoded_lines.
      repeat (constructor;
              [first [ apply Hlit; [split; no_colon | assumption]
                     | split; intros [] ]|]).
      constructor. }
    rewrite SSEventDecode_read. f_equal. unfold decode_bytes. rewrite normalize_id.
    + rewrite Split_Join.
      * rewrite decode_encoded_lines by assumption.
        destruct e as [name data id retry]. cbn [Event Data ID Retry] in *.
        now rewrite Hd.
      * discriminate.
      * eapply Forall_impl; [|exact Hplain]. intros l Hl. apply Hl.
    + unfold encoded_lines. reflexivity.
    + apply Join_no_byte; [discriminate|].
      eapply Forall_impl; [|exact Hplain]. intros l Hl. apply Hl.
Qed.

Lemma round_trip_witness : round_trips test_event.
Proof.
  apply (round_trip test_event (lit "test data"));
    try discriminate; try reflexivity;
    try (split; no_colon); try no_colon.
Defined.

(** * Further properties *)

(** ** Several events through one sink *)

Lemma layout_block (e : SSEvent) (payload : Bytes) :
  layout e payload = terminated (block_lines e payload).
Proof.
  unfold layout, block_lines, terminated, field_line.
  destruct (Event e) as [|n0 name]; destruct (ID e) as [|i0 id];
    destruct (0 <? Retry e);
    cbn [app flat_map]; repeat (rewrite <- app_assoc; cbn [app]); reflexivity.
Qed.

Lemma terminated_app (l1 l2 : list Bytes) :
  terminated (l1 ++ l2) = terminated l1 ++ terminated l2.
Proof. apply flat_map_app. Qed.

Lemma encode_all_layout (writer : Bytes) (es : list SSEvent) :
  Forall (fun e => exists payload, Data e = Some (NewReader payload)) es ->
  encode_all writer es =
  Returned (writer ++
            terminated (flat_map (fun e => block_lines e (payload_of e)) es)).
Proof.
  intros H. revert writer. induction H as [|e es [p Hp] _ IH]; intros writer.
  - cbn [encode_all flat_map terminated]. now rewrite app_nil_r.
  - cbn [encode_all flat_map]. rewrite (SSEventEncode_layout writer e p Hp).
    cbn [bind]. rewrite IH, terminated_app, layout_block.
    unfold payload_of. rewrite Hp. cbn [rd_bytes NewReader].
    now rewrite app_assoc.
Qed.

Lemma Split_terminated (ls : list Bytes) :
  Forall (fun l => ~ In LF l) ls -> Split (terminated ls) [LF] = ls ++ [[]].
Proof.
  intros H. induction H as [|l ls Hl _ IH]; [reflexivity|].
  cbn [terminated flat_map app]. rewrite <- app_assoc. cbn [app].
  rewrite Split_piece by assumption. f_equal. exact IH.
Qed.

Lemma terminated_no_CR (ls : list Bytes) :
  Forall (fun l => ~ In CR l) ls -> ~ In CR (terminated ls).
Proof.
  intros H. induction H as [|l ls Hl _ IH]; [intros []|].
  cbn [terminated flat_map]. rewrite !in_app_iff. cbn [In].
  intros [[Hin|[Hin|[]]]|Hin]; [tauto | discriminate | tauto].
Qed.

Lemma terminated_BOM (l : Bytes) (ls : list Bytes) :
  HasPrefix (terminated (l :: ls)) BOM = HasPrefix l BOM.
Proof.
  cbn [terminated flat_map]. rewrite <- app_assoc. cbn [app].
  apply HasPrefix_BOM_line. now left.
Qed.

Ltac plain_lit := split; vm_compute; intuition discriminate.

Lemma block_lines_plain (e : SSEvent) (payload : Bytes) :
  plain (Event e) -> plain (ID e) -> 0 <= Retry e <= maxInt -> plain payload ->
  Forall plain (block_lines e payload).
Proof.
  intros He Hi Hr Hp. unfold block_lines.
  assert (Hf : plain (fmt_d (Retry e))).
  { apply digits_plain. apply fmt_d_decimal.
    unfold maxUint, maxInt, intSize in *. simpl in *. lia. }
  destruct (Event e) as [|n0 name]; destruct (ID e) as [|i0 id];
    destruct (0 <? Retry e); cbn [app];
    repeat (constructor;
            [first [ apply plain_app; [plain_lit | assumption]
                   | split; intros [] ]|]);
    constructor.
Qed.

Lemma block_lines_BOM (e : SSEvent) (payload : Bytes) (rest : list Bytes) :
  HasPrefix (terminated (block_lines e payload ++ rest)) BOM = false.
Proof.
  unfold block_lines.
  destruct (Event e) as [|n0 name]; destruct (ID e) as [|i0 id];
    destruct (0 <? Retry e); cbn [app];
    rewrite terminated_BOM; reflexivity.
Qed.

Lemma process_line_event (st : state) (v : Bytes) :
  process_line st (lit "event: " ++ v) = process_field st (lit "event") v.
Proof.
  change (lit "event: " ++ v) with (lit "event" ++ colon :: space :: v).
  rewrite process_line_field by (discriminate || no_colon). reflexivity.
Qed.

Lemma process_line_data (st : state) (v : Bytes) :
  process_line st (lit "data: " ++ v) = process_field st (lit "data") v.
Proof.
  change (lit "data: " ++ v) with (lit "data" ++ colon :: space :: v).
  rewrite process_line_field by (discriminate || no_colon). reflexivity.
Qed.

(** One block, read by a loop that has nothing pending, adds its event. *)
Lemma process_block (evs : list SSEvent) (e : SSEvent) (payload : Bytes) :
  ~ In NUL (ID e) -> 0 <= Retry e <= maxInt ->
  process_lines {| dataLines := []; event := SSEvent_zero; events := evs |}
    (block_lines e payload) =
  {| dataLines := []; event := SSEvent_zero;
     events := evs ++
       [default_name {| Event := Event e; Data := Some (NewReader payload);
                        ID := ID e; Retry := Retry e |}] |}.
Proof.
  intros Hn Hr. unfold block_lines.
  assert (Hc : Contains (ID e) [NUL] = false).
  { apply not_true_iff_false. now rewrite Contains_byte. }
  destruct (Event e) as [|n0 name] eqn:En; destruct (ID e) as [|i0 id] eqn:Ei;
    destruct (0 <? Retry e) eqn:Er;
    cbn [app]; rewrite !process_lines_cons;
    rewrite ?process_line_event, ?process_line_id, ?process_line_retry,
      ?process_line_data, ?process_field_event, ?process_field_id,
      ?process_field_retry, ?process_field_data, ?Hc;
    cbn [negb];
    rewrite ?Atoi_fmt_d by lia;
    try (replace (0 <=? Retry e) with true by (symmetry; apply Z.leb_le; lia));
    rewrite ?uint_small by lia;
    cbn [event dataLines events with_event set_Event set_ID set_Retry
         Event Data ID Retry SSEvent_zero app];
    rewrite process_line_blank,
      end_of_event_emits by (left; cbn [dataLines]; discriminate);
    unfold completed, default_name;
    cbn [process_lines fold_left event dataLines events set_Event
         Event Data ID Retry SSEvent_zero Join];
    try reflexivity;
    apply Z.ltb_ge in Er; replace (Retry e) with 0 by lia; reflexivity.
Qed.

Lemma process_blocks (evs : list SSEvent) (es : list SSEvent) :
  Forall (fun e => ~ In NUL (ID e) /\ 0 <= Retry e <= maxInt) es ->
  process_lines {| dataLines := []; event := SSEvent_zero; events := evs |}
    (flat_map (fun e => block_lines e (payload_of e)) es) =
  {| dataLines := []; event := SSEvent_zero;
     events := evs ++
       map (fun e => default_name
                       {| Event := Event e;
                          Data := Some (NewReader (payload_of e));
                          ID := ID e; Retry := Retry e |}) es |}.
Proof.
  intros H. revert evs. induction H as [|e es [Hn Hr] _ IH]; intros evs.
  - cbn [flat_map map process_lines fold_left]. now rewrite app_nil_r.
  - cbn [flat_map map]. rewrite process_lines_app, process_block by assumption.
    rewrite IH, <- app_assoc. reflexivity.
Qed.

Lemma encodable_rebuild (e : SSEvent) :
  encodable e ->
  {| Event := Event e; Data := Some (NewReader (payload_of e));
     ID := ID e; Retry := Retry e |} = e.
Proof.
  intros (p & Hd & _). unfold payload_of. destruct e as [name data id retry].
  cbn [Event Data ID Retry] in *. subst data. reflexivity.
Qed.

Lemma encodable_block_plain (es : list SSEvent) :
  Forall encodable es ->
  Forall plain (flat_map (fun e => block_lines e (payload_of e)) es).
Proof.
  intros H. induction H as [|e es He _ IH]; [constructor|].
  cbn [flat_map]. apply Forall_app. split; [|exact IH].
  destruct He as (p & Hd & Hp & Hn & Hi & _ & Hr).
  apply block_lines_plain; try assumption.
  unfold payload_of. now rewrite Hd.
Qed.

Lemma decode_encoded_blocks (es : list SSEvent) :
  Forall encodable es ->
  decode_bytes (terminated (flat_map (fun e => block_lines e (payload_of e)) es)) =
  map default_name es.
Proof.
  intros H. pose proof (encodable_block_plain es H) as Hplain.
  unfold decode_bytes. rewrite normalize_id.
  - rewrite Split_terminated
      by (eapply Forall_impl; [|exact Hplain]; intros l Hl; apply Hl).
    rewrite process_lines_app.
    change state_init
      with {| dataLines := []; event := SSEvent_zero; events := [] |}.
    rewrite process_blocks.
    + cbn [process_lines fold_left app].
      rewrite process_line_blank, end_of_event_skips by reflexivity.
      cbn [events]. apply map_ext_in. intros e He.
      rewrite Forall_forall in H. now rewrite encodable_rebuild by auto.
    + eapply Forall_impl; [|exact H]. intros e (p & _ & _ & _ & _ & Hn & Hr).
      now split.
  - destruct es as [|e es]; [reflexivity|]. cbn [flat_map].
    apply block_lines_BOM.
  - apply terminated_no_CR.
    eapply Forall_impl; [|exact Hplain]. intros l Hl. apply Hl.
Qed.

Lemma encodable_has_payload (es : list SSEvent) :
  Forall encodable es ->
  Forall (fun e => exists payload, Data e = Some (NewReader payload)) es.
Proof.
  intros H. eapply Forall_impl; [|exact H]. intros e (p & Hd & _). now exists p.
Qed.

(** X1: events the wire format can carry, encoded one after the other into
    one empty sink, are decoded from it as the same events in the same
    order, an event without a name with the name ["message"]; fields that
    are empty or zero are not written and come back empty or zero. *)
Theorem encode_all_round_trip (es : list SSEvent) :
  Forall encodable es ->
  exists out,
    encode_all [] es = Returned out /\
    SSEventDecode (NewReader out) = (map default_name es, None).
Proof.
  intros H. eexists. split.
  - apply encode_all_layout. now apply encodable_has_payload.
  - rewrite SSEventDecode_read. cbn [app]. now rewrite decode_encoded_blocks.
Qed.

Lemma encode_all_round_trip_witness :
  exists out,
    encode_all [] test_events = Returned out /\
    SSEventDecode (NewReader out) = (map default_name test_events, None).
Proof.
  apply (encode_all_round_trip test_events).
  repeat constructor;
    (eexists; repeat split; try reflexivity;
     vm_compute; intuition discriminate).
Defined.

(** ** How a call of the encoder ends *)

Lemma SSEventEncode_outcome (writer : Bytes) (e : SSEvent) :
  SSEventEncode writer e =
  match Data e with
  | None => Panicked
  | Some r =>
      match rd_err r with
      | Some err => Failed err
      | None => Returned (writer ++ layout e (rd_bytes r))
      end
  end.
Proof.
  destruct (Data e) as [[p [err|]]|] eqn:Hd; cbn [rd_err rd_bytes].
  - unfold SSEventEncode, Fprintf_s, Fprintf_d, Copy, WriteString.
    rewrite Hd.
    destruct (0 <? len (Event e)); destruct (0 <? len (ID e));
      destruct (0 <? Retry e); reflexivity.
  - now apply SSEventEncode_layout.
  - unfold SSEventEncode, Fprintf_s, Fprintf_d, Copy, WriteString.
    rewrite Hd.
    destruct (0 <? len (Event e)); destruct (0 <? len (ID e));
      destruct (0 <? Retry e); reflexivity.
Qed.

(** X2: [SSEventEncode] returns the error of the payload reader when that
    reader fails, and it returns without error exactly when the event has a
    payload whose reader ends with end of file; what it then leaves in the
    sink is what the sink held, followed by bytes that end with [data: ],
    the payload and an empty line. *)
Theorem encode_outcomes (writer : Bytes) (e : SSEvent) :
  (forall r err, Data e = Some r -> rd_err r = Some err ->
     SSEventEncode writer e = Failed err) /\
  ((exists out, SSEventEncode writer e = Returned out) <->
   (exists r, Data e = Some r /\ rd_err r = None)) /\
  (forall out, SSEventEncode writer e = Returned out ->
     exists fields,
       out = writer ++ fields ++ lit "data: " ++ payload_of e ++ [LF; LF]).
Proof.
  rewrite SSEventEncode_outcome. split; [|split].
  - intros r err -> ->. reflexivity.
  - split.
    + intros [out H]. destruct (Data e) as [r|]; [|discriminate].
      exists r. destruct (rd_err r); [discriminate | now split].
    + intros (r & -> & ->). now eexists.
  - intros out H. unfold payload_of.
    destruct (Data e) as [r|]; [|discriminate].
    destruct (rd_err r); [discriminate|]. injection H as <-.
    unfold layout.
    match goal with
    | |- context [writer ++ ?a ++ ?b ++ ?c ++ lit "data: " ++ _] =>
        exists (a ++ b ++ c)
    end.
    now rewrite <- !app_assoc.
Qed.

Lemma encode_outcomes_witness :
  SSEventEncode []
    {| Event := lit "e";
       Data := Some {| rd_bytes := lit "partial"; rd_err := Some "reset"%string |};
       ID := []; Retry := 0 |} = Failed "reset"%string.
Proof.
  apply (proj1 (encode_outcomes [] _)
           {| rd_bytes := lit "partial"; rd_err := Some "reset"%string |});
    reflexivity.
Defined.

(** ** What every decoded event satisfies *)

Lemma In_firstn (n : nat) (l : Bytes) (x : byte) : In x (firstn n l) -> In x l.
Proof.
  intros H. rewrite <- (firstn_skipn n l). apply in_or_app. now left.
Qed.

Lemma In_skipn (n : nat) (l : Bytes) (x : byte) : In x (skipn n l) -> In x l.
Proof.
  intros H. rewrite <- (firstn_skipn n l). apply in_or_app. now right.
Qed.

Lemma split_field_incl (line : Bytes) (x : byte) :
  (In x (fst (split_field line)) -> In x line) /\
  (In x (snd (split_field line)) -> In x line).
Proof.
  unfold split_field, slice_to, slice_from. cbv zeta.
  destruct (negb (IndexRune line colon =? -1)); cbn [fst snd].
  - split; [apply In_firstn|].
    intros H. apply (In_skipn (Z.to_nat (IndexRune line colon + 1))).
    destruct (skipn (Z.to_nat (IndexRune line colon + 1)) line) as [|v0 v];
      [exact H|].
    destruct (Byte.eqb v0 space); [right; exact H | exact H].
  - split; [tauto | intros []].
Qed.

Lemma Split_pieces (c : byte) (s l : Bytes) :
  In l (Split s [c]) -> ~ In c l /\ (forall x, In x l -> In x s).
Proof.
  revert l. induction s as [|x s IH]; intros l Hl.
  - destruct Hl as [<-|[]]. split; [intros [] | tauto].
  - destruct (Byte.byte_eq_dec x c) as [->|Hx].
    + rewrite Split_sep in Hl. destruct Hl as [<-|Hl].
      * split; [intros [] | intros y []].
      * destruct (IH l Hl) as [H1 H2]. split; [exact H1|].
        intros y Hy. right. now apply H2.
    + rewrite Split_other in Hl by assumption.
      destruct (Split s [c]) as [|l0 ls] eqn:E; cbn [cons_head] in Hl.
      * destruct Hl as [<-|[]]. split; [intros [H|[]]; congruence|].
        intros y [<-|[]]. now left.
      * destruct Hl as [<-|Hl].
        -- destruct (IH l0 (or_introl eq_refl)) as [H1 H2]. split.
           ++ intros [H|H]; [congruence | tauto].
           ++ intros y [<-|Hy]; [now left | right; now apply H2].
        -- destruct (IH l (or_intror Hl)) as [H1 H2]. split; [exact H1|].
           intros y Hy. right. now apply H2.
Qed.

Lemma normalize_no_CR (raw : Bytes) : ~ In CR (normalize raw).
Proof.
  unfold normalize. rewrite ReplaceAll_CR_map. intros H.
  apply in_map_iff in H. destruct H as (x & Hx & _).
  destruct (Byte.eqb x CR) eqn:E; [discriminate|].
  apply byte_eqb_false_iff in E. congruence.
Qed.

Lemma normalized_lines_plain (raw : Bytes) :
  Forall plain (Split (normalize raw) [LF]).
Proof.
  apply Forall_forall. intros l Hl.
  destruct (Split_pieces LF _ _ Hl) as [H1 H2]. split; [|exact H1].
  intros H. apply (normalize_no_CR raw). now apply H2.
Qed.

Lemma fields_ok_zero : fields_ok SSEvent_zero.
Proof.
  unfold fields_ok, plain, maxInt, intSize. cbn [Event ID Retry SSEvent_zero In].
  simpl. repeat split; try tauto; lia.
Qed.

Ltac ok_goals :=
  unfold state_ok, decoded_ok, fields_ok, payload_ok;
  cbn [event dataLines events with_event set_Event set_ID set_Retry
       Event ID Retry Data rd_err rd_bytes NewReader];
  repeat split; try assumption;
  try (match goal with H : plain _ |- _ => apply H end);
  try lia.

Lemma process_field_ok (st : state) (f v : Bytes) :
  state_ok st -> plain v -> state_ok (process_field st f v).
Proof.
  intros Hst Hv. pose proof Hst as (Hf & Hd & Hl & He).
  destruct Hf as (Hn & Hi & Hz & Hr).
  unfold process_field.
  destruct (bytes_eqb f (lit "event")); [|destruct (bytes_eqb f (lit "id"));
    [|destruct (bytes_eqb f (lit "retry")); [|destruct (bytes_eqb f (lit "data"))]]].
  - ok_goals.
  - destruct (Contains v [NUL]) eqn:E; cbn [negb]; [exact Hst|].
    apply not_true_iff_false in E. rewrite Contains_byte in E. ok_goals.
  - destruct (Atoi v) as [n|] eqn:Ea; [|exact Hst].
    destruct (0 <=? n) eqn:E0; [|exact Hst].
    apply Z.leb_le in E0. apply Atoi_spec in Ea. destruct Ea as [_ Hrange].
    rewrite uint_small by lia. ok_goals.
  - ok_goals. apply Forall_app. split; [assumption|].
    constructor; [apply Hv | constructor].
  - exact Hst.
Qed.

Lemma plain_message : plain (lit "message").
Proof. split; vm_compute; intuition discriminate. Qed.

Lemma end_of_event_ok (st : state) : state_ok st -> state_ok (end_of_event st).
Proof.
  intros Hst. pose proof Hst as (Hf & Hd & Hl & He).
  destruct Hf as (Hn & Hi & Hz & Hr).
  assert (Hj : ~ In CR (Join (dataLines st) [LF])).
  { apply Join_no_byte; [discriminate | assumption]. }
  pose proof plain_message as Hm.
  destruct (dataLines st) as [|d dl] eqn:Edl;
    [destruct (Event (event st)) as [|n0 name] eqn:En|].
  - now rewrite end_of_event_skips.
  - rewrite end_of_event_emits by (right; congruence).
    split; [apply fields_ok_zero|]. split; [reflexivity|]. split; [constructor|].
    cbn [events]. apply Forall_app. split; [assumption|].
    constructor; [|constructor]. unfold completed. rewrite Edl, En, Hd.
    ok_goals. discriminate.
  - rewrite end_of_event_emits by (left; congruence).
    split; [apply fields_ok_zero|]. split; [reflexivity|]. split; [constructor|].
    cbn [events]. apply Forall_app. split; [assumption|].
    constructor; [|constructor]. unfold completed. rewrite Edl.
    destruct (Event (event st)) as [|n0 name] eqn:En; ok_goals; discriminate.
Qed.

Lemma process_line_ok (st : state) (line : Bytes) :
  state_ok st -> plain line -> state_ok (process_line st line).
Proof.
  intros Hst Hl. destruct line as [|c line].
  - rewrite process_line_blank. now apply end_of_event_ok.
  - rewrite process_line_nonblank by discriminate.
    destruct (HasPrefix (c :: line) [colon]); [assumption|].
    apply process_field_ok; [assumption|].
    split; intros H; apply split_field_incl in H; now apply Hl in H.
Qed.

Lemma process_lines_ok (st : state) (ls : list Bytes) :
  state_ok st -> Forall plain ls -> state_ok (process_lines st ls).
Proof.
  intros Hst H. revert st Hst. induction H as [|l ls Hl _ IH]; intros st Hst.
  - exact Hst.
  - rewrite process_lines_cons. apply IH. now apply process_line_ok.
Qed.

Lemma decode_bytes_ok (raw : Bytes) : Forall decoded_ok (decode_bytes raw).
Proof.
  unfold decode_bytes.
  apply (process_lines_ok state_init (Split (normalize raw) [LF])).
  - split; [apply fields_ok_zero|]. split; [reflexivity|].
    split; constructor.
  - apply normalized_lines_plain.
Qed.

(** X3: whatever the input, every event [SSEventDecode] returns has a name
    that is not empty, a name and an id without CR and LF, and, when it has
    a payload, a payload reader that does not fail and delivers no CR. *)
Theorem decoded_events_are_well_formed (raw : Bytes) :
  Forall (fun e =>
            Event e <> [] /\ plain (Event e) /\ plain (ID e) /\
            match Data e with
            | None => True
            | Some r => rd_err r = None /\ ~ In CR (rd_bytes r)
            end)
         (decode_bytes raw).
Proof.
  eapply Forall_impl; [|apply decode_bytes_ok].
  intros e (Hne & (Hn & Hi & _) & Hp).
  split; [exact Hne|]. split; [exact Hn|]. split; [exact Hi | exact Hp].
Qed.

(** X4: whatever the input, every event [SSEventDecode] returns has a retry
    between 0 and the largest [int] and an id without a NUL byte. *)
Theorem decoded_retry_and_id_are_safe (raw : Bytes) :
  Forall (fun e => 0 <= Retry e <= maxInt /\ ~ In NUL (ID e)) (decode_bytes raw).
Proof.
  eapply Forall_impl; [|apply decode_bytes_ok].
  intros e (_ & (_ & _ & Hz & Hr) & _). now split.
Qed.

Lemma default_name_named (e : SSEvent) : Event e <> [] -> default_name e = e.
Proof. intros H. unfold default_name. destruct (Event e); [now elim H | reflexivity]. Qed.

Lemma encodable_round_trip (e : SSEvent) :
  encodable e ->
  exists out,
    SSEventEncode [] e = Returned out /\
    SSEventDecode (NewReader out) = ([default_name e], None).
Proof.
  intros He. pose proof He as (p & Hd & _).
  exists (terminated (flat_map (fun e => block_lines e (payload_of e)) [e])).
  split.
  - rewrite (SSEventEncode_layout [] e p Hd), layout_block.
    cbn [flat_map app]. rewrite app_nil_r. unfold payload_of. now rewrite Hd.
  - rewrite SSEventDecode_read, decode_encoded_blocks by (now constructor).
    reflexivity.
Qed.

(** X5: an event [SSEventDecode] returned with a payload that has no LF in
    it (a block with one [data] line) can be given back to
    [SSEventEncode]: what that writes decodes to this event alone. *)
Theorem decoded_event_reencodes (raw : Bytes) (e : SSEvent) (payload : Bytes) :
  In e (decode_bytes raw) ->
  Data e = Some (NewReader payload) -> ~ In LF payload ->
  exists out,
    SSEventEncode [] e = Returned out /\
    SSEventDecode (NewReader out) = ([e], None).
Proof.
  intros Hin Hd Hlf.
  pose proof (decode_bytes_ok raw) as Hok. rewrite Forall_forall in Hok.
  destruct (Hok e Hin) as (Hne & (Hn & Hi & Hz & Hr) & Hp).
  unfold payload_ok in Hp. rewrite Hd in Hp. cbn [rd_err rd_bytes NewReader] in Hp.
  destruct (encodable_round_trip e) as (out & H1 & H2).
  { exists payload.
    repeat split; try assumption; try apply Hn; try apply Hi; try apply Hp; lia. }
  exists out. rewrite default_name_named in H2 by assumption. now split.
Qed.

Lemma decoded_event_reencodes_witness :
  exists out,
    SSEventEncode []
      {| Event := lit "t"; Data := Some (NewReader (lit "d"));
         ID := []; Retry := 0 |} = Returned out /\
    SSEventDecode (NewReader out) =
      ([{| Event := lit "t"; Data := Some (NewReader (lit "d"));
           ID := []; Retry := 0 |}], None).
Proof.
  apply (decoded_event_reencodes input_blank_lines _ (lit "d")).
  - left. reflexivity.
  - reflexivity.
  - vm_compute. intuition discriminate.
Defined.

(** ** The normalized buffer *)

Lemma replace_CRLF_length (skip : nat) (s : Bytes) :
  (length (replace_from skip s [CR; LF] [LF]) <= length s)%nat.
Proof.
  revert skip. induction s as [|c s IH]; intros skip; [simpl; lia|].
  destruct skip as [|k]; cbn [replace_from].
  - destruct (HasPrefix (c :: s) [CR; LF]); cbn [length app Nat.sub].
    + specialize (IH 1%nat). lia.
    + specialize (IH 0%nat). lia.
  - specialize (IH k). cbn [length]. lia.
Qed.

(** X6: whatever the input, the normalized buffer holds no CR and is not
    longer than the input, and no line the loop is given holds a CR or an
    LF. *)
Theorem normalized_buffer_has_no_CR (raw : Bytes) :
  ~ In CR (normalize raw) /\
  (length (normalize raw) <= length raw)%nat /\
  Forall plain (Split (normalize raw) [LF]).
Proof.
  split; [apply normalize_no_CR | split; [|apply normalized_lines_plain]].
  unfold normalize. rewrite ReplaceAll_CR_map, length_map.
  unfold ReplaceAll at 1.
  pose proof (replace_CRLF_length 0 (TrimPrefix raw BOM)) as H1.
  assert (H2 : (length (TrimPrefix raw BOM) <= length raw)%nat).
  { unfold TrimPrefix. destruct (HasPrefix raw BOM); [|lia].
    rewrite length_skipn. lia. }
  lia.
Qed.

(** ** Field names the decoder does not know *)

Lemma process_field_unknown (st : state) (f v : Bytes) :
  ~ known_field f -> process_field st f v = st.
Proof.
  intros H. unfold known_field in H. unfold process_field.
  rewrite !bytes_eqb_neq by tauto. reflexivity.
Qed.

Lemma process_line_unknown (st : state) (l : Bytes) :
  l <> [] -> ~ known_field (fst (split_field l)) -> process_line st l = st.
Proof.
  intros Hl Hf. rewrite process_line_nonblank by assumption.
  destruct (HasPrefix l [colon]); [reflexivity|].
  now apply process_field_unknown.
Qed.

(** X7: a line that is not empty and whose field name is not exactly
    [event], [id], [retry] or [data] (another case, a space around the name,
    no name at all) changes nothing in the loop; an input with such a line
    put in at any place decodes to the same events. *)
Theorem unknown_fields_are_ignored :
  (forall st l,
     l <> [] -> ~ known_field (fst (split_field l)) -> process_line st l = st) /\
  (forall raw raw' pre l post,
     l <> [] -> ~ known_field (fst (split_field l)) ->
     Split (normalize raw) [LF] = pre ++ post ->
     Split (normalize raw') [LF] = pre ++ l :: post ->
     decode_bytes raw' = decode_bytes raw).
Proof.
  split; [apply process_line_unknown|].
  intros raw raw' pre l post Hl Hf Hr Hr'. unfold decode_bytes.
  rewrite Hr, Hr', !process_lines_app, process_lines_cons.
  now rewrite process_line_unknown.
Qed.

Lemma unknown_fields_are_ignored_witness :
  decode_bytes input_unknown_field = decode_bytes input_uncommented.
Proof.
  apply (proj2 unknown_fields_are_ignored
           input_uncommented input_unknown_field
           [lit "event: t"] (lit "Data: x") [lit "data: d"; []; []]);
    try reflexivity; try discriminate.
  vm_compute. intuition discriminate.
Defined.

(** ** The order of the fields of a block *)

Lemma field_cases (f : Bytes) :
  f = lit "event" \/ f = lit "id" \/ f = lit "retry" \/ f = lit "data" \/
  ~ known_field f.
Proof.
  destruct (bytes_eqb f (lit "event")) eqn:E1; [apply bytes_eqb_eq in E1; tauto|].
  destruct (bytes_eqb f (lit "id")) eqn:E2; [apply bytes_eqb_eq in E2; tauto|].
  destruct (bytes_eqb f (lit "retry")) eqn:E3; [apply bytes_eqb_eq in E3; tauto|].
  destruct (bytes_eqb f (lit "data")) eqn:E4; [apply bytes_eqb_eq in E4; tauto|].
  do 4 right. intros [ H | [ H | [ H | H ] ] ]; subst f; discriminate.
Qed.

Ltac field_steps :=
  rewrite ?process_field_event, ?process_field_id, ?process_field_retry,
    ?process_field_data, ?process_field_unknown by assumption;
  cbn [event dataLines events with_event set_Event set_ID set_Retry
       Event Data ID Retry].

(** X8: within a block the order of lines with different field names does
    not matter: the loop reaches the same state either way.  Of two [event]
    lines, and of two [id] lines without NUL, the later one wins. *)
Theorem distinct_fields_commute (st : state) (f1 v1 f2 v2 : Bytes) :
  f1 <> f2 ->
  process_field (process_field st f1 v1) f2 v2 =
  process_field (process_field st f2 v2) f1 v1 /\
  process_field (process_field st (lit "event") v1) (lit "event") v2 =
  process_field st (lit "event") v2 /\
  (~ In NUL v2 ->
   process_field (process_field st (lit "id") v1) (lit "id") v2 =
   process_field st (lit "id") v2).
Proof.
  intros Hne. split; [|split].
  - destruct (field_cases f1) as [->|[->|[->|[->|H1]]]];
      destruct (field_cases f2) as [->|[->|[->|[->|H2]]]];
      try (now elim Hne);
      repeat (field_steps; case_field); reflexivity.
  - reflexivity.
  - intros Hv. rewrite !process_field_id.
    replace (Contains v2 [NUL]) with false
      by (symmetry; apply not_true_iff_false; now rewrite Contains_byte).
    destruct (negb (Contains v1 [NUL])); reflexivity.
Qed.

Lemma distinct_fields_commute_witness :
  process_field (process_field state_init (lit "id") (lit "7")) (lit "retry") (lit "10") =
  process_field (process_field state_init (lit "retry") (lit "10")) (lit "id") (lit "7").
Proof.
  apply (proj1 (distinct_fields_commute state_init
                  (lit "id") (lit "7") (lit "retry") (lit "10")
                  ltac:(discriminate))).
Defined.

(** ** Empty lines, again *)

Lemma end_of_event_idle (st : state) : idle (end_of_event st).
Proof.
  unfold end_of_event, idle.
  destruct ((len (dataLines st) =? 0) && bytes_eqb (Event (event st)) []) eqn:E.
  - apply andb_true_iff in E. destruct E as [E1 E2].
    apply len_zero_iff in E1. apply bytes_eqb_eq in E2. now split.
  - now split.
Qed.

Lemma end_of_event_idem (st : state) :
  end_of_event (end_of_event st) = end_of_event st.
Proof.
  destruct (end_of_event_idle st) as [H1 H2]. now apply end_of_event_skips.
Qed.

Lemma blank_lines_idle (st : state) (k : nat) :
  idle st -> process_lines st (repeat [] k) = st.
Proof.
  intros [H1 H2]. induction k as [|k IH]; [reflexivity|].
  cbn [repeat]. rewrite process_lines_cons, process_line_blank.
  now rewrite end_of_event_skips.
Qed.

(** X9: an empty line after an empty line changes nothing: wherever an
    input has an empty line, any number of further empty lines next to it
    leave the decoded events the same. *)
Theorem repeated_blank_lines_collapse :
  (forall st, process_line (process_line st []) [] = process_line st []) /\
  (forall raw raw' pre post k,
     Split (normalize raw) [LF] = pre ++ [] :: post ->
     Split (normalize raw') [LF] = pre ++ [] :: repeat [] k ++ post ->
     decode_bytes raw' = decode_bytes raw).
Proof.
  split.
  - intros st. rewrite !process_line_blank. apply end_of_event_idem.
  - intros raw raw' pre post k Hr Hr'. unfold decode_bytes.
    rewrite Hr, Hr', !process_lines_app, !process_lines_cons, process_lines_app.
    rewrite process_line_blank, blank_lines_idle by apply end_of_event_idle.
    reflexivity.
Qed.

Lemma repeated_blank_lines_collapse_witness :
  decode_bytes (lit "data: d" ++ [LF; LF; LF; LF]) =
  decode_bytes (lit "data: d" ++ [LF; LF]).
Proof.
  apply (proj2 repeated_blank_lines_collapse
           (lit "data: d" ++ [LF; LF]) (lit "data: d" ++ [LF; LF; LF; LF])
           [lit "data: d"] [[]] 2%nat);
    reflexivity.
Defined.

(** ** Blocks without a name and without data *)

Lemma process_field_Event (st : state) (f v : Bytes) :
  f <> lit "event" -> Event (event (process_field st f v)) = Event (event st).
Proof.
  intros Hf. unfold process_field.
  rewrite (bytes_eqb_neq f (lit "event")) by assumption.
  case_field; reflexivity.
Qed.

Lemma no_name_no_data_step (st : state) (l : Bytes) :
  idle st ->
  fst (split_field l) <> lit "event" -> fst (split_field l) <> lit "data" ->
  idle (process_line st l) /\ events (process_line st l) = events st.
Proof.
  intros [H1 H2] He Hd. destruct l as [|c l].
  - rewrite process_line_blank, end_of_event_skips by assumption. now repeat split.
  - rewrite process_line_nonblank by discriminate.
    destruct (HasPrefix (c :: l) [colon]); [now repeat split|].
    unfold idle.
    rewrite process_field_dataLines, process_field_Event, process_field_events
      by assumption.
    now repeat split.
Qed.

(** X10: an input none of whose lines has the field name [event] or [data]
    decodes to no event at all: blocks of [id] and [retry] lines alone are
    dropped without an error. *)
Theorem no_name_no_data_no_event (raw : Bytes) :
  (forall l, In l (Split (normalize raw) [LF]) ->
     fst (split_field l) <> lit "event" /\ fst (split_field l) <> lit "data") ->
  SSEventDecode (NewReader raw) = ([], None).
Proof.
  intros H. rewrite SSEventDecode_read. f_equal. unfold decode_bytes.
  assert (Hgen : forall ls st,
             (forall l, In l ls ->
                fst (split_field l) <> lit "event" /\
                fst (split_field l) <> lit "data") ->
             idle st -> events (process_lines st ls) = events st).
  { induction ls as [|l ls IH]; intros st Hls Hst; [reflexivity|].
    rewrite process_lines_cons.
    destruct (Hls l (or_introl eq_refl)) as [He Hd].
    destruct (no_name_no_data_step st l Hst He Hd) as [Hi Hev].
    rewrite IH; [exact Hev | | exact Hi].
    intros l' Hl'. apply Hls. now right. }
  now rewrite Hgen by (assumption || now split).
Qed.

Lemma no_name_no_data_no_event_witness :
  SSEventDecode
    (NewReader (lit "id: 7" ++ [LF] ++ lit "retry: 10" ++ [LF; LF])) = ([], None).
Proof.
  apply no_name_no_data_no_event.
  intros l [<-|[<-|[<-|[<-|[]]]]]; split; discriminate.
Defined.

(** ** Fields that outlive an empty line *)

(** X11: an empty line met with nothing pending does not start the event
    afresh: an [id] and a [retry] given before any number of empty lines
    are still those of the event the next [data] line belongs to. *)
Theorem id_and_retry_survive_blank_lines (id payload : Bytes) (retry : Z) (k : nat) :
  plain id -> ~ In NUL id -> plain payload -> 0 < retry <= maxInt ->
  SSEventDecode
    (NewReader
       (terminated ([lit "id: " ++ id; lit "retry: " ++ fmt_d retry] ++
                    repeat [] k ++ [lit "data: " ++ payload; []]))) =
  ([{| Event := lit "message"; Data := Some (NewReader payload);
       ID := id; Retry := retry |}], None).
Proof.
  intros Hid Hnul Hp Hr. rewrite SSEventDecode_read. f_equal.
  assert (Hf : plain (fmt_d retry)).
  { apply digits_plain. apply fmt_d_decimal.
    unfold maxUint, maxInt, intSize in *. simpl in *. lia. }
  assert (Hplain : Forall plain
            ([lit "id: " ++ id; lit "retry: " ++ fmt_d retry] ++
             repeat [] k ++ [lit "data: " ++ payload; []])).
  { apply Forall_app. split; [|apply Forall_app; split].
    - constructor; [apply plain_app; [plain_lit | assumption]|].
      constructor; [apply plain_app; [plain_lit | assumption] | constructor].
    - apply Forall_forall. intros l Hl. apply repeat_spec in Hl. subst l.
      split; intros [].
    - constructor; [apply plain_app; [plain_lit | assumption]|].
      constructor; [split; intros [] | constructor]. }
  unfold decode_bytes. rewrite normalize_id.
  - rewrite Split_terminated
      by (eapply Forall_impl; [|exact Hplain]; intros l Hl; apply Hl).
    rewrite <- !app_assoc. cbn [app]. rewrite !process_lines_cons.
    rewrite process_line_id, process_line_retry, process_field_id,
      process_field_retry.
    replace (Contains id [NUL]) with false
      by (symmetry; apply not_true_iff_false; now rewrite Contains_byte).
    cbn [negb]. rewrite Atoi_fmt_d by lia.
    replace (0 <=? retry) with true by (symmetry; apply Z.leb_le; lia).
    rewrite uint_small by lia.
    rewrite process_lines_app, blank_lines_idle by (split; reflexivity).
    rewrite !process_lines_cons, process_line_data, process_field_data.
    cbn [event dataLines events with_event set_ID set_Retry state_init
         Event Data ID Retry SSEvent_zero app].
    rewrite !process_line_blank.
    match goal with
    | |- context [end_of_event (end_of_event ?st)] =>
        rewrite (end_of_event_emits st) by (left; cbn [dataLines]; discriminate)
    end.
    rewrite end_of_event_skips by reflexivity. reflexivity.
  - cbn [app]. now rewrite terminated_BOM.
  - apply terminated_no_CR.
    eapply Forall_impl; [|exact Hplain]. intros l Hl. apply Hl.
Qed.

Lemma id_and_retry_survive_blank_lines_witness :
  SSEventDecode
    (NewReader
       (lit "id: 7" ++ [LF] ++ lit "retry: 10" ++ [LF; LF; LF] ++
        lit "data: d" ++ [LF; LF])) =
  ([{| Event := lit "message"; Data := Some (NewReader (lit "d"));
       ID := lit "7"; Retry := 10 |}], None).
Proof.
  apply (id_and_retry_survive_blank_lines (lit "7") (lit "d") 10 2);
    try plain_lit; vm_compute; intuition discriminate.
Defined.

(** ** A payload with a newline in it *)

Lemma block_lines_fields (e : SSEvent) (payload : Bytes) :
  block_lines e payload = field_lines e ++ [lit "data: " ++ payload; []].
Proof. unfold block_lines, field_lines. now rewrite <- !app_assoc. Qed.

Lemma layout_embedded (e : SSEvent) (p1 p2 : Bytes) :
  layout e (p1 ++ LF :: p2) =
  terminated (field_lines e ++ [lit "data: " ++ p1; p2; []]).
Proof.
  unfold layout, field_lines, terminated, field_line.
  destruct (Event e) as [|n0 name]; destruct (ID e) as [|i0 id];
    destruct (0 <? Retry e);
    cbn [app flat_map]; repeat (rewrite <- app_assoc; cbn [app]); reflexivity.
Qed.

Lemma field_lines_BOM (e : SSEvent) (payload : Bytes) (rest : list Bytes) :
  HasPrefix (terminated (field_lines e ++ (lit "data: " ++ payload) :: rest)) BOM =
  false.
Proof.
  unfold field_lines.
  destruct (Event e) as [|n0 name]; destruct (ID e) as [|i0 id];
    destruct (0 <? Retry e); cbn [app];
    rewrite terminated_BOM; reflexivity.
Qed.

(** X12: [SSEventEncode] writes a payload with an LF in it as it is, and
    [SSEventDecode] then takes as payload only what is in front of the first
    LF: what follows it, when it is empty or a line without a known field
    name, is lost. *)
Theorem embedded_newline_truncates_payload (e : SSEvent) (p1 p2 : Bytes) :
  Data e = Some (NewReader (p1 ++ LF :: p2)) ->
  plain p1 -> plain p2 ->
  p2 = [] \/ ~ known_field (fst (split_field p2)) ->
  plain (Event e) -> plain (ID e) -> ~ In NUL (ID e) ->
  0 <= Retry e <= maxInt ->
  exists out,
    SSEventEncode [] e = Returned out /\
    SSEventDecode (NewReader out) =
    ([default_name {| Event := Event e; Data := Some (NewReader p1);
                      ID := ID e; Retry := Retry e |}], None).
Proof.
  intros Hd Hp1 Hp2 Hrest Hn Hi Hz Hr.
  exists (terminated (field_lines e ++ [lit "data: " ++ p1; p2; []])). split.
  - rewrite (SSEventEncode_layout [] e _ Hd). cbn [app]. now rewrite layout_embedded.
  - rewrite SSEventDecode_read. f_equal.
    pose proof (block_lines_plain e p1 Hn Hi Hr Hp1) as Hb.
    rewrite block_lines_fields in Hb. apply Forall_app in Hb.
    destruct Hb as [Hfl Hdl]. inversion Hdl as [|? ? Hdata _]; subst.
    assert (Hplain : Forall plain (field_lines e ++ [lit "data: " ++ p1; p2; []])).
    { apply Forall_app. split; [exact Hfl|].
      repeat constructor; try assumption; try apply Hdata; try apply Hp2;
        intros []. }
    pose proof (process_block [] e p1 Hz Hr) as Hblock.
    rewrite block_lines_fields in Hblock.
    replace (field_lines e ++ [lit "data: " ++ p1; []])
      with ((field_lines e ++ [lit "data: " ++ p1]) ++ [[]]) in Hblock
      by (now rewrite <- app_assoc).
    rewrite process_lines_app in Hblock.
    cbn [process_lines fold_left] in Hblock. rewrite process_line_blank in Hblock.
    unfold decode_bytes. rewrite normalize_id.
    + rewrite Split_terminated
        by (eapply Forall_impl; [|exact Hplain]; intros l Hl; apply Hl).
      replace ((field_lines e ++ [lit "data: " ++ p1; p2; []]) ++ [[]])
        with ((field_lines e ++ [lit "data: " ++ p1]) ++ [p2; []; []])
        by (now rewrite <- !app_assoc).
      rewrite process_lines_app.
      change state_init
        with {| dataLines := []; event := SSEvent_zero; events := [] |}.
      set (S := process_lines _ (field_lines e ++ [lit "data: " ++ p1])) in *.
      assert (Hstep : process_line S p2 = S \/ process_line S p2 = end_of_event S).
      { destruct Hrest as [->|Hu]; [right; apply process_line_blank|].
        destruct p2 as [|c p2]; [right; apply process_line_blank|].
        left. apply process_line_unknown; [discriminate | assumption]. }
      rewrite !process_lines_cons. cbn [process_lines fold_left].
      rewrite !process_line_blank.
      destruct Hstep as [-> | ->]; rewrite ?end_of_event_idem, Hblock; reflexivity.
    + apply field_lines_BOM.
    + apply terminated_no_CR.
      eapply Forall_impl; [|exact Hplain]. intros l Hl. apply Hl.
Qed.

Lemma embedded_newline_truncates_payload_witness :
  exists out,
    SSEventEncode []
      {| Event := lit "multiline";
         Data := Some (NewReader (lit "line1" ++ LF :: lit "line2"));
         ID := []; Retry := 0 |} = Returned out /\
    SSEventDecode (NewReader out) =
    ([{| Event := lit "multiline"; Data := Some (NewReader (lit "line1"));
         ID := []; Retry := 0 |}], None).
Proof.
  apply (embedded_newline_truncates_payload
           {| Event := lit "multiline";
              Data := Some (NewReader (lit "line1" ++ LF :: lit "line2"));
              ID := []; Retry := 0 |} (lit "line1") (lit "line2"));
    try reflexivity; try plain_lit;
    vm_compute; intuition discriminate.
Defined.

(** ** Events that are complete stay as they are *)

Lemma process_line_extends (st : state) (l : Bytes) :
  exists more, events (process_line st l) = events st ++ more.
Proof.
  destruct l as [|c l].
  - rewrite process_line_blank. unfold end_of_event.
    destruct (_ && _); [exists []; now rewrite app_nil_r | now eexists].
  - exists []. rewrite process_line_events by discriminate. now rewrite app_nil_r.
Qed.

Lemma process_lines_extends (st : state) (ls : list Bytes) :
  exists more, events (process_lines st ls) = events st ++ more.
Proof.
  revert st. induction ls as [|l ls IH]; intros st.
  - exists []. now rewrite app_nil_r.
  - rewrite process_lines_cons.
    destruct (IH (process_line st l)) as [m2 H2].
    destruct (process_line_extends st l) as [m1 H1].
    exists (m1 ++ m2). now rewrite H2, H1, app_assoc.
Qed.

Lemma Split_nonempty (s sep : Bytes) : Split s sep <> [].
Proof.
  unfold Split. generalize 0%nat. induction s as [|c s IH]; intros skip;
    [discriminate|].
  cbn [split_from]. destruct skip; [|apply IH].
  destruct (HasPrefix (c :: s) sep); [discriminate|].
  specialize (IH 0%nat). destruct (split_from 0 s sep); [congruence | discriminate].
Qed.

Lemma Split_app (c : byte) (u v : Bytes) :
  Split (u ++ c :: v) [c] = Split u [c] ++ Split v [c].
Proof.
  induction u as [|x u IH]; [apply Split_sep|]. cbn [app].
  destruct (Byte.byte_eq_dec x c) as [->|Hx].
  - rewrite !Split_sep, IH. reflexivity.
  - rewrite !Split_other, IH by assumption.
    pose proof (Split_nonempty u [c]) as Hne.
    destruct (Split u [c]); [congruence | reflexivity].
Qed.

(** The first pass never pairs the LF after [x] with anything behind it. *)
Lemma replace_CRLF_cut (x y : Bytes) :
  replace_from 0 (x ++ LF :: y) [CR; LF] [LF] =
  replace_from 0 (x ++ [LF]) [CR; LF] [LF] ++ replace_from 0 y [CR; LF] [LF] /\
  replace_from 1 (x ++ LF :: y) [CR; LF] [LF] =
  replace_from 1 (x ++ [LF]) [CR; LF] [LF] ++ replace_from 0 y [CR; LF] [LF].
Proof.
  induction x as [|c x [IH0 IH1]].
  - split; reflexivity.
  - assert (Hp : HasPrefix (x ++ LF :: y) [LF] = HasPrefix (x ++ [LF]) [LF]).
    { destruct x; reflexivity. }
    split.
    + cbn [app replace_from length Nat.sub].
      change (HasPrefix (c :: x ++ LF :: y) [CR; LF])
        with (Byte.eqb c CR && HasPrefix (x ++ LF :: y) [LF]).
      change (HasPrefix (c :: x ++ [LF]) [CR; LF])
        with (Byte.eqb c CR && HasPrefix (x ++ [LF]) [LF]).
      rewrite Hp.
      destruct (Byte.eqb c CR && HasPrefix (x ++ [LF]) [LF]).
      * rewrite IH1. reflexivity.
      * rewrite IH0. reflexivity.
    + cbn [app replace_from]. exact IH0.
Qed.

Lemma replace_CRLF_ends_LF (x : Bytes) :
  (exists w, replace_from 0 (x ++ [LF]) [CR; LF] [LF] = w ++ [LF]) /\
  (x <> [] -> exists w, replace_from 1 (x ++ [LF]) [CR; LF] [LF] = w ++ [LF]).
Proof.
  induction x as [|c x [IH0 IH1]].
  - split; [now exists [] | congruence].
  - split.
    + cbn [app replace_from length Nat.sub].
      change (HasPrefix (c :: x ++ [LF]) [CR; LF])
        with (Byte.eqb c CR && HasPrefix (x ++ [LF]) [LF]).
      destruct (Byte.eqb c CR && HasPrefix (x ++ [LF]) [LF]).
      * destruct x as [|d x].
        -- now exists [].
        -- destruct IH1 as [w Hw]; [discriminate|]. exists (LF :: w).
           cbn [app] in *. now rewrite Hw.
      * destruct IH0 as [w Hw]. exists (c :: w). now rewrite Hw.
    + intros _. cbn [app replace_from]. exact IH0.
Qed.

Lemma TrimPrefix_line (a rest : Bytes) :
  TrimPrefix (a ++ LF :: rest) BOM = TrimPrefix a BOM ++ LF :: rest.
Proof.
  unfold TrimPrefix. rewrite HasPrefix_BOM_line by (now left).
  destruct (HasPrefix a BOM) eqn:E; [|reflexivity].
  destruct a as [|a1 [|a2 [|a3 a]]]; cbn [HasPrefix BOM] in E;
    rewrite ?andb_false_r in E; try discriminate.
  reflexivity.
Qed.

(** X13: an event that an empty line has completed is final: whatever
    bytes follow the empty line, the events decoded up to it stay the same
    and in front, and events are only added after them. *)
Theorem completed_events_are_final (a b : Bytes) :
  exists more,
    decode_bytes (a ++ [LF; LF] ++ b) = decode_bytes (a ++ [LF; LF]) ++ more.
Proof.
  unfold decode_bytes, normalize.
  change (a ++ [LF; LF] ++ b) with (a ++ LF :: LF :: b).
  change (a ++ [LF; LF]) with (a ++ LF :: [LF]).
  rewrite !TrimPrefix_line. set (a0 := TrimPrefix a BOM).
  unfold ReplaceAll at 2 4.
  rewrite (proj1 (replace_CRLF_cut a0 (LF :: b))).
  rewrite (proj1 (replace_CRLF_cut a0 [LF])).
  destruct (proj1 (replace_CRLF_ends_LF a0)) as [w Hw]. rewrite Hw.
  change (replace_from 0 [LF] [CR; LF] [LF]) with [LF].
  change (replace_from 0 (LF :: b) [CR; LF] [LF])
    with (LF :: ReplaceAll b [CR; LF] [LF]).
  rewrite !ReplaceAll_CR_map, !map_app. cbn [map].
  change (Byte.eqb LF CR) with false. cbv iota.
  set (u := map _ w). set (mb := map _ (ReplaceAll b [CR; LF] [LF])).
  rewrite <- !app_assoc. cbn [app].
  rewrite !(Split_app LF u). rewrite !Split_sep.
  change (Split [] [LF]) with [@nil byte].
  rewrite !process_lines_app, !process_lines_cons, !process_line_blank.
  cbn [process_lines fold_left]. rewrite end_of_event_idem.
  apply process_lines_extends.
Qed.

(** ** Malformed lines do not stop the decoder *)

Lemma ignored_line_skipped (st : state) (l : Bytes) :
  ignored_line l = true -> process_line st l = st.
Proof.
  unfold ignored_line. intros H. apply andb_true_iff in H. destruct H as [Hl H].
  assert (Hne : l <> []).
  { intros ->. discriminate. }
  rewrite process_line_nonblank by assumption.
  destruct (HasPrefix l [colon]); [reflexivity|]. cbn [orb] in H.
  destruct (split_field l) as [f v]. cbn [fst snd]. unfold process_field.
  destruct (bytes_eqb f (lit "event")); [discriminate|].
  destruct (bytes_eqb f (lit "id")); [now rewrite H|].
  destruct (bytes_eqb f (lit "retry")).
  - destruct (Atoi v) as [n|]; [|reflexivity].
    apply Z.ltb_lt in H.
    replace (0 <=? n) with false by (symmetry; apply Z.leb_gt; lia).
    reflexivity.
  - destruct (bytes_eqb f (lit "data")); [discriminate | reflexivity].
Qed.

Lemma process_lines_kept (st : state) (ls : list Bytes) :
  process_lines st ls = process_lines st (filter kept_line ls).
Proof.
  revert st. induction ls as [|l ls IH]; intros st; [reflexivity|].
  cbn [filter]. unfold kept_line at 1.
  destruct (ignored_line l) eqn:E; cbn [negb].
  - rewrite process_lines_cons, ignored_line_skipped by assumption. apply IH.
  - rewrite !process_lines_cons. apply IH.
Qed.

Lemma process_encoded_lines (es : list SSEvent) :
  Forall encodable es ->
  events (process_lines state_init
            (flat_map (fun e => block_lines e (payload_of e)) es ++ [[]])) =
  map default_name es.
Proof.
  intros H. rewrite process_lines_app.
  change state_init
    with {| dataLines := []; event := SSEvent_zero; events := [] |}.
  rewrite process_blocks.
  - cbn [process_lines fold_left app].
    rewrite process_line_blank, end_of_event_skips by reflexivity.
    cbn [events]. apply map_ext_in. intros e He.
    rewrite Forall_forall in H. now rewrite encodable_rebuild by auto.
  - eapply Forall_impl; [|exact H]. intros e (p & _ & _ & _ & _ & Hn & Hr).
    now split.
Qed.

(** C2: [SSEventDecode] returns the error of draining the source and no
    other, so it fails if and only if the read fails.  Once the bytes are
    read, the loop passes over every malformed line (a field name it does
    not know, an [id] with a NUL, a [retry] that is no integer or is
    negative; comments too) without changing anything and goes on: the
    result is that of the input without those lines, with a nil error, so
    the events of well-formed blocks among such lines are all returned.
    Nothing in the loop can stop it: the two slices taken at the colon are
    within the line. *)
Theorem decode_fails_iff_read_fails (reader : Reader) :
  snd (SSEventDecode reader) = snd (ReadAll reader) /\
  (snd (SSEventDecode reader) <> None <-> rd_err reader <> None) /\
  (forall st l, ignored_line l = true -> process_line st l = st) /\
  (rd_err reader = None ->
   SSEventDecode reader =
   (events (process_lines state_init
              (filter kept_line (Split (normalize (rd_bytes reader)) [LF]))),
    None)) /\
  (rd_err reader = None ->
   forall es,
     Forall encodable es ->
     filter kept_line (Split (normalize (rd_bytes reader)) [LF]) =
       flat_map (fun e => block_lines e (payload_of e)) es ++ [[]] ->
     SSEventDecode reader = (map default_name es, None)) /\
  (forall line,
     IndexRune line colon <> -1 ->
     0 <= IndexRune line colon /\ IndexRune line colon + 1 <= len line).
Proof.
  assert (Hread : rd_err reader = None ->
                  SSEventDecode reader =
                  (events (process_lines state_init
                             (filter kept_line
                                (Split (normalize (rd_bytes reader)) [LF]))),
                   None)).
  { intros E. unfold SSEventDecode, ReadAll. rewrite E. f_equal.
    unfold decode_bytes. apply f_equal, process_lines_kept. }
  split; [|split; [|split; [|split; [|split]]]].
  - unfold SSEventDecode, ReadAll. cbn [snd].
    destruct (rd_err reader); reflexivity.
  - unfold SSEventDecode, ReadAll.
    destruct (rd_err reader); cbn [snd]; split; congruence.
  - apply ignored_line_skipped.
  - exact Hread.
  - intros E es Hes Hk. rewrite (Hread E), Hk. f_equal.
    now apply process_encoded_lines.
  - intros line H.
    pose proof (IndexRune_ge line colon). pose proof (IndexRune_lt line colon).
    lia.
Qed.

Lemma decode_fails_iff_read_fails_witness :
  SSEventDecode (NewReader input_malformed) =
  ([{| Event := lit "t"; Data := Some (NewReader (lit "d"));
       ID := []; Retry := 0 |}], None).
Proof.
  apply (proj1 (proj2 (proj2 (proj2 (proj2
           (decode_fails_iff_read_fails (NewReader input_malformed))))))
           eq_refl
           [{| Event := lit "t"; Data := Some (NewReader (lit "d"));
               ID := []; Retry := 0 |}]).
  - constructor; [|constructor]. exists (lit "d").
    repeat split; try reflexivity; vm_compute; intuition discriminate.
  - reflexivity.
Defined.
